(** * The hangman game controller (src/game/game.controller.ts)

    A shallow embedding of [GameController]: every handler is a computation
    in a small state-and-exception monad over the injected [GameService]
    (the room registry and the returning-player history) and the
    [GameGateway] (the broadcast channel).  The world records, in the order
    they happen, every method the controller calls on a collaborator and
    every event it broadcasts, so that the sequencing contract of the
    controller can be stated on the trace.  Calls to the logger are left
    out.

    The controller's collaborators (game.service, game.models,
    game.gateway, player-in-turn.guard) are injected: the controller is
    written against their interface ([Collaborators]), and [SpecModel] is
    a model of that interface that follows the specification. *)

From stdpp Require Import gmap strings list fin_maps.
From Stdlib Require Import ZArith.

Local Open Scope string_scope.
Local Open Scope list_scope.
Local Open Scope Z_scope.

(** ** Data model *)

(** [PlayerInfo]: the controller reads [player.id] and [player.points]. *)
Record PlayerInfo := mkPlayerInfo {
  player_id : string;
  player_name : string;
  player_points : Z;
  player_isMaster : bool
}.

(** One cell of [room.currentWord]; the controller reads [l.letter]. *)
Record WordLetter := mkWordLetter {
  letter : string;
  guessed : bool
}.

(** The result of a letter guess. *)
Record GuessInfo := mkGuessInfo {
  guess_letter : string;
  guess_hit : bool;
  guess_positions : list nat;
  guess_player : string
}.

(** [finishState.player] is re-broadcast when a game ends. *)
Record FinishState := mkFinishState {
  finish_player : PlayerInfo;
  finish_reason : string
}.

(** What [getReturningPlayer] and [removePlayer] hand to the controller:
    [returningPlayer.roomId], [.player], [.wasMaster], [.round]. *)
Record ReturningPlayer := mkReturningPlayer {
  rp_roomId : string;
  rp_player : PlayerInfo;
  rp_wasMaster : bool;
  rp_round : Z
}.

(** The room entity.  Its id is the key under which the registry holds it:
    [getRoomById roomId] finds the room whose id is [roomId], so [room.id]
    of a room obtained that way is that key (see [Room.id]).
    [finishReported] and [creditedPlayer] serve completion detection;
    [nextInLine] keeps the round-robin order across the departure of the
    turn holder: who is next once the turn holder has left the turn
    order. *)
Record RoomEntity := mkRoomEntity {
  round : Z;
  players : list PlayerInfo;
  masterId : string;
  currentTurn : string;
  currentWord : list WordLetter;
  guessedLetters : list string;
  creditedPlayer : string;
  finishReported : bool;
  nextInLine : option string
}.

Definition set_currentTurn (userId : string) (r : RoomEntity) : RoomEntity :=
  mkRoomEntity (round r) (players r) (masterId r) userId (currentWord r)
               (guessedLetters r) (creditedPlayer r) (finishReported r)
               (nextInLine r).

(** The state held by the injected [GameService]. *)
Record GameService := mkGameService {
  rooms : gmap string RoomEntity;
  returningPlayers : gmap string ReturningPlayer
}.

(** The exceptions a request can end with. *)
Inductive HttpException :=
| NotFoundException
| BadRequestException (message : string)
| ForbiddenException.

(** ** Effects: collaborator calls and broadcasts *)

Inductive Call :=
| SvcGetRoomById (roomId : string)
| SvcGetReturningPlayer (userId : string)
| SvcAddPlayer (roomId userId name : string) (points : Z)
| SvcUpdateMaster (roomId playerId : string)
| SvcRemovePlayer (roomId playerId : string) (save : bool)
| SvcIsPlayerInTurn (roomId playerId : string)
| SvcUpdateNextTurn (roomId : string)
| SvcCheckGameFinished (roomId : string)
| RoomRestartGame (room : string)
| RoomSetWord (room word : string)
| RoomUpdateNextTurn (room : string)
| RoomCheckGuessIsPresent (room char : string)
| RoomAddGuess (room char : string)
| RoomCheckWordGuess (room userId word : string).

Inductive Broadcast :=
| GwRestartGame (roomId : string) (room : RoomEntity)
| GwJoin (roomId : string) (player : PlayerInfo)
| GwUpdateMaster (roomId playerId : string)
| GwNewTurn (roomId userId : string)
| GwLeaveRoom (roomId : string) (playerLeaving : ReturningPlayer)
| GwSetWord (roomId : string) (word : list WordLetter)
| GwNewGuess (roomId : string) (guessInfo : GuessInfo)
| GwFinishGame (roomId : string) (finishState : FinishState)
| GwUpdatePlayer (roomId : string) (player : PlayerInfo)
| GwNewWordGuess (roomId word : string).

Inductive Effect :=
| Invoke (c : Call)
| Emit (b : Broadcast).

(** The broadcasts of a trace, in order. *)
Fixpoint broadcasts (t : list Effect) : list Broadcast :=
  match t with
  | [] => []
  | Emit b :: t' => b :: broadcasts t'
  | Invoke _ :: t' => broadcasts t'
  end.

(** The collaborator calls of a trace, in order. *)
Fixpoint calls (t : list Effect) : list Call :=
  match t with
  | [] => []
  | Invoke c :: t' => c :: calls t'
  | Emit _ :: t' => calls t'
  end.

Definition isTurnAdvance (c : Call) : bool :=
  match c with
  | SvcUpdateNextTurn _ | RoomUpdateNextTurn _ => true
  | _ => false
  end.

Definition isNewTurn (b : Broadcast) : bool :=
  match b with
  | GwNewTurn _ _ => true
  | _ => false
  end.

(** ** The request monad *)

Record World := mkWorld {
  service : GameService;
  trace : list Effect
}.

Inductive Outcome (A : Type) :=
| Returned (a : A)
| Thrown (e : HttpException).
Arguments Returned {A} a.
Arguments Thrown {A} e.

(** A handler runs on the world and either returns or throws; the world
    it leaves behind is kept in both cases (an exception rolls nothing
    back). *)
Definition M (A : Type) : Type := World → Outcome A * World.

#[global] Instance M_ret : MRet M := λ A a w, (Returned a, w).

#[global] Instance M_bind : MBind M := λ A B f m w,
  match m w with
  | (Returned a, w') => f a w'
  | (Thrown e, w') => (Thrown e, w')
  end.

Definition throw {A} (e : HttpException) : M A := λ w, (Thrown e, w).

Definition record (e : Effect) : M unit :=
  λ w, (Returned (), mkWorld (service w) (trace w ++ [e])).

Definition invoke (c : Call) : M unit := record (Invoke c).
Definition emit (b : Broadcast) : M unit := record (Emit b).

Definition getService : M GameService := λ w, (Returned (service w), w).
Definition putService (s : GameService) : M unit :=
  λ w, (Returned (), mkWorld s (trace w)).

Definition storeRoom (roomId : string) (r : RoomEntity) (s : GameService)
  : GameService :=
  mkGameService (<[roomId := r]> (rooms s)) (returningPlayers s).

(** [onRoom roomId f]: run the room-local transition [f] on the registry's
    entry for [roomId] and store the room it leaves.  A room reference held
    by the controller is the registry's own instance, so the methods it
    calls on the reference and the service calls it makes with the id act
    on the same entry. *)
Definition onRoom {A} (roomId : string) (f : RoomEntity → A * RoomEntity)
  : M A :=
  s ← getService;
  match rooms s !! roomId with
  | None => throw NotFoundException
  | Some r => let '(a, r') := f r in putService (storeRoom roomId r' s);; mret a
  end.

(** Reading a field of the room. *)
Definition readRoom {A} (roomId : string) (f : RoomEntity → A) : M A :=
  s ← getService;
  match rooms s !! roomId with
  | None => throw NotFoundException
  | Some r => mret (f r)
  end.

(** [array.forEach]. *)
Fixpoint forEach {A} (f : A → M unit) (l : list A) : M unit :=
  match l with
  | [] => mret ()
  | x :: l' => f x;; forEach f l'
  end.

(** ** The collaborators' interface

    The methods of [GameService] and [RoomEntity] that the controller
    calls, as transitions of the room they act on ([removePlayer] also
    sees the returning-player history).  No entity is shared between
    rooms, so a call made for one room leaves the others as they are. *)
Class Collaborators := {
  svc_addPlayer : string → string → Z → RoomEntity → PlayerInfo * RoomEntity;
  svc_updateMaster : string → RoomEntity → RoomEntity;
  svc_removePlayer :
    string → string → bool → RoomEntity → gmap string ReturningPlayer →
    ReturningPlayer * (RoomEntity * gmap string ReturningPlayer);
  svc_isPlayerInTurn : string → RoomEntity → bool;
  svc_updateNextTurn : RoomEntity → string * RoomEntity;
  svc_checkGameFinished : RoomEntity → option FinishState * RoomEntity;
  room_restartGame : RoomEntity → RoomEntity;
  room_setWord : string → RoomEntity → option HttpException * RoomEntity;
  room_updateNextTurn : RoomEntity → string * RoomEntity;
  room_checkGuessIsPresent : string → RoomEntity → bool;
  room_addGuess : string → RoomEntity → GuessInfo * RoomEntity;
  room_checkWordGuess : string → string → RoomEntity → RoomEntity;
  guard_isPlayerInTurn : string → RoomEntity → bool;
  guard_isPlayerMaster : string → RoomEntity → bool
}.

(** ** GameService, as the controller calls it *)
Module Service.
Section Service.
Context `{Collaborators}.

(** Modelled from the spec: [getRoomById] is missing from the sources;
    it "fails with RoomNotFoundError if absent", surfaced as a client
    "not found" failure.  The reference it returns is the room's id. *)
Definition getRoomById (roomId : string) : M string :=
  invoke (SvcGetRoomById roomId);;
  readRoom roomId (λ _, roomId).

(** Modelled from the spec: [getReturningPlayer] is missing from the
    sources; it "returns the last saved record or none; does not mutate
    or expire the record". *)
Definition getReturningPlayer (userId : string) : M (option ReturningPlayer) :=
  invoke (SvcGetReturningPlayer userId);;
  s ← getService;
  mret (returningPlayers s !! userId).

Definition addPlayer (roomId userId name : string) (points : Z)
  : M PlayerInfo :=
  invoke (SvcAddPlayer roomId userId name points);;
  onRoom roomId (svc_addPlayer userId name points).

Definition updateMaster (roomId playerId : string) : M unit :=
  invoke (SvcUpdateMaster roomId playerId);;
  onRoom roomId (λ r, ((), svc_updateMaster playerId r)).

Definition removePlayer (roomId playerId : string) (save : bool)
  : M ReturningPlayer :=
  invoke (SvcRemovePlayer roomId playerId save);;
  s ← getService;
  match rooms s !! roomId with
  | None => throw NotFoundException
  | Some r =>
      let '(leaving, (r', history)) :=
        svc_removePlayer roomId playerId save r (returningPlayers s) in
      putService (mkGameService (<[roomId := r']> (rooms s)) history);;
      mret leaving
  end.

Definition isPlayerInTurn (roomId playerId : string) : M bool :=
  invoke (SvcIsPlayerInTurn roomId playerId);;
  readRoom roomId (svc_isPlayerInTurn playerId).

Definition updateNextTurn (roomId : string) : M string :=
  invoke (SvcUpdateNextTurn roomId);;
  onRoom roomId svc_updateNextTurn.

Definition checkGameFinished (roomId : string) : M (option FinishState) :=
  invoke (SvcCheckGameFinished roomId);;
  onRoom roomId svc_checkGameFinished.
End Service.
End Service.

(** ** RoomEntity, through a reference obtained from [getRoomById] *)
Module Room.
Section Room.
Context `{Collaborators}.

(** [room.id] *)
Definition id (room : string) : string := room.

(** [room.round] *)
Definition round (room : string) : M Z := readRoom room round.

(** [room.currentWord] *)
Definition currentWord (room : string) : M (list WordLetter) :=
  readRoom room currentWord.

(** [room.currentTurn = userId] *)
Definition assignCurrentTurn (room userId : string) : M unit :=
  onRoom room (λ r, ((), set_currentTurn userId r)).

Definition restartGame (room : string) : M unit :=
  invoke (RoomRestartGame room);;
  onRoom room (λ r, ((), room_restartGame r)).

(** [room.setWord(word)], which throws when it rejects the word. *)
Definition setWord (room word : string) : M unit :=
  invoke (RoomSetWord room word);;
  rejected ← onRoom room (room_setWord word);
  match rejected with
  | Some e => throw e
  | None => mret ()
  end.

Definition updateNextTurn (room : string) : M string :=
  invoke (RoomUpdateNextTurn room);;
  onRoom room room_updateNextTurn.

Definition checkGuessIsPresent (room char : string) : M bool :=
  invoke (RoomCheckGuessIsPresent room char);;
  readRoom room (room_checkGuessIsPresent char).

Definition addGuess (room char : string) : M GuessInfo :=
  invoke (RoomAddGuess room char);;
  onRoom room (room_addGuess char).

Definition checkWordGuess (room userId word : string) : M unit :=
  invoke (RoomCheckWordGuess room userId word);;
  onRoom room (λ r, ((), room_checkWordGuess userId word r)).
End Room.
End Room.

(** ** GameGateway: every method broadcasts one event *)
Module Gateway.
Definition restartGame (roomId : string) (room : RoomEntity) : M unit :=
  emit (GwRestartGame roomId room).
Definition join (roomId : string) (player : PlayerInfo) : M unit :=
  emit (GwJoin roomId player).
Definition updateMaster (roomId playerId : string) : M unit :=
  emit (GwUpdateMaster roomId playerId).
Definition newTurn (roomId userId : string) : M unit :=
  emit (GwNewTurn roomId userId).
Definition leaveRoom (roomId : string) (playerLeaving : ReturningPlayer)
  : M unit :=
  emit (GwLeaveRoom roomId playerLeaving).
Definition setWord (roomId : string) (word : list WordLetter) : M unit :=
  emit (GwSetWord roomId word).
Definition newGuess (roomId : string) (guessInfo : GuessInfo) : M unit :=
  emit (GwNewGuess roomId guessInfo).
Definition finishGame (roomId : string) (finishState : FinishState)
  : M unit :=
  emit (GwFinishGame roomId finishState).
Definition updatePlayer (roomId : string) (player : PlayerInfo) : M unit :=
  emit (GwUpdatePlayer roomId player).
Definition newWordGuess (roomId word : string) : M unit :=
  emit (GwNewWordGuess roomId word).
End Gateway.

(** The message of the exception thrown for a letter already tried. *)
Definition alreadyGuessed (char : string) : string :=
  "Letter " +:+ String (Ascii.ascii_of_nat 34) "" +:+ char +:+ String (Ascii.ascii_of_nat 34) ""
  +:+ " already guessed".

(** ** GameController *)
Module Controller.
Section Controller.
Context `{Collaborators}.

(** [@IsPlayerInTurnGuard()] and [@IsPlayerMasterGuard()]: the request is
    refused before the handler runs. *)
Definition IsPlayerInTurnGuard (roomId userId : string) : M unit :=
  ok ← readRoom roomId (guard_isPlayerInTurn userId);
  if ok : bool then mret () else throw ForbiddenException.

Definition IsPlayerMasterGuard (roomId userId : string) : M unit :=
  ok ← readRoom roomId (guard_isPlayerMaster userId);
  if ok : bool then mret () else throw ForbiddenException.

Definition restartGame (roomId : string) : M RoomEntity :=
  room ← Service.getRoomById roomId;
  Room.restartGame room;;
  roomDto ← readRoom room (λ r, r);
  Gateway.restartGame roomId roomDto;;
  mret roomDto.

Definition joinRoom (roomId name userId : string) : M PlayerInfo :=
  returningPlayer ← Service.getReturningPlayer userId;
  let points :=
    match returningPlayer with
    | Some rp =>
        if bool_decide (rp_roomId rp = roomId)
        then player_points (rp_player rp) else 0
    | None => 0
    end in
  player ← Service.addPlayer roomId userId name points;
  Gateway.join roomId player;;
  room ← Service.getRoomById roomId;
  roomRound ← Room.round room;
  match returningPlayer with
  | Some rp =>
      if rp_wasMaster rp && bool_decide (roomRound = rp_round rp) then
        Service.updateMaster (Room.id room) (player_id player);;
        Gateway.updateMaster (Room.id room) (player_id player);;
        word ← Room.currentWord room;
        match word with
        | [] =>
            Room.assignCurrentTurn room userId;;
            Gateway.newTurn roomId userId
        | _ :: _ => mret ()
        end
      else mret ()
  | None => mret ()
  end;;
  mret player.

Definition removePlayer (roomId playerId : string) : M PlayerInfo :=
  playerLeaving ← Service.removePlayer roomId playerId false;
  Gateway.leaveRoom roomId playerLeaving;;
  inTurn ← Service.isPlayerInTurn roomId playerId;
  (if inTurn : bool then
     next ← Service.updateNextTurn roomId;
     Gateway.newTurn roomId next
   else mret ());;
  mret (rp_player playerLeaving).

Definition setWord (roomId word : string) : M string :=
  room ← Service.getRoomById roomId;
  Room.setWord room word;;
  current ← Room.currentWord room;
  Gateway.setWord roomId current;;
  next ← Room.updateNextTurn room;
  Gateway.newTurn roomId next;;
  mret word.

Definition checkGameFinished (room : string) : M bool :=
  finishState ← Service.checkGameFinished (Room.id room);
  match finishState with
  | Some fs =>
      word ← Room.currentWord room;
      revealed ← mapM (λ l, Room.addGuess room (letter l)) word;
      forEach (λ guessInfo, Gateway.newGuess (Room.id room) guessInfo)
              revealed;;
      Gateway.finishGame (Room.id room) fs;;
      Gateway.updatePlayer (Room.id room) (finish_player fs);;
      mret true
  | None => mret false
  end.

Definition newGuess (roomId char : string) : M GuessInfo :=
  room ← Service.getRoomById roomId;
  present ← Room.checkGuessIsPresent room char;
  if present : bool then
    throw (BadRequestException (alreadyGuessed char))
  else
    guessInfo ← Room.addGuess room char;
    Gateway.newGuess roomId guessInfo;;
    finished ← checkGameFinished room;
    (if finished : bool then mret ()
     else
       next ← Room.updateNextTurn room;
       Gateway.newTurn (Room.id room) next);;
    mret guessInfo.

Definition newWordGuess (roomId word userId : string) : M string :=
  room ← Service.getRoomById roomId;
  Room.checkWordGuess room userId word;;
  finished ← checkGameFinished room;
  (if finished : bool then mret ()
   else Gateway.newWordGuess roomId word);;
  mret word.

(** The guarded endpoints: [setWord] and [newGuess] carry
    [@IsPlayerInTurnGuard()], [restartGame] carries
    [@IsPlayerMasterGuard()]; [caller] is the player id of the request
    header. *)
Definition postWord (caller roomId word : string) : M string :=
  IsPlayerInTurnGuard roomId caller;; setWord roomId word.

Definition postGuess (caller roomId char : string) : M GuessInfo :=
  IsPlayerInTurnGuard roomId caller;; newGuess roomId char.

Definition putRestartGame (caller roomId : string) : M RoomEntity :=
  IsPlayerMasterGuard roomId caller;; restartGame roomId.
End Controller.
End Controller.

(** ** The finish sequence, read off the controller *)
Section Reveal.
Context `{Collaborators}.

(** The pure reading of [word.map(l => room.addGuess(l.letter))]: the
    guesses are applied to the room one after the other, in word order. *)
Fixpoint revealAll (word : list WordLetter) (r : RoomEntity)
  : list GuessInfo * RoomEntity :=
  match word with
  | [] => ([], r)
  | l :: word' =>
      let '(guessInfo, r') := room_addGuess (letter l) r in
      let '(rest, r'') := revealAll word' r' in
      (guessInfo :: rest, r'')
  end.

(** What the private [checkGameFinished] leaves on the trace when the
    service reports a finish state for a room whose word is [word] and
    whose synthetic guesses were answered by [revealed]. *)
Definition finishSequence (room : string) (word : list WordLetter)
    (revealed : list GuessInfo) (fs : FinishState) : list Effect :=
  [Invoke (SvcCheckGameFinished room)]
  ++ (Invoke <$> (RoomAddGuess room <$> (letter <$> word)))
  ++ (Emit <$> (GwNewGuess room <$> revealed))
  ++ [Emit (GwFinishGame room fs);
      Emit (GwUpdatePlayer room (finish_player fs))].
End Reveal.

(** ** The two conditions of [joinRoom], read off the controller *)

(** Line 62: [returningPlayer?.roomId === roomId] decides the points
    handed to [addPlayer]. *)
Definition joinPoints (roomId : string) (returningPlayer : option ReturningPlayer)
  : Z :=
  match returningPlayer with
  | Some rp =>
      if bool_decide (rp_roomId rp = roomId)
      then player_points (rp_player rp) else 0
  | None => 0
  end.

(** Line 70: [returningPlayer?.wasMaster && room.round ===
    returningPlayer.round] decides whether the joiner takes over as
    master. *)
Definition takesOver (returningPlayer : option ReturningPlayer)
    (room : RoomEntity) : bool :=
  match returningPlayer with
  | Some rp => rp_wasMaster rp && bool_decide (round room = rp_round rp)
  | None => false
  end.

(** What every join does first. *)
Definition joinPrefix (roomId name userId : string) (points : Z)
    (player : PlayerInfo) : list Effect :=
  [Invoke (SvcGetReturningPlayer userId);
   Invoke (SvcAddPlayer roomId userId name points);
   Emit (GwJoin roomId player);
   Invoke (SvcGetRoomById roomId)].

(** ** What the specification says of the collaborators

    The laws below are the parts of the specification of the service and
    of the room entity that the controller's own guarantees rest on. *)

(** Letter guesses (spec 4.1): [checkGuessIsPresent] is "true if letter
    already in guessedLetters". *)
Class GuessContract `{Collaborators} : Prop := {
  checkGuessIsPresent_spec : ∀ char r,
    room_checkGuessIsPresent char r = true ↔ char ∈ guessedLetters r
}.

(** Joining (spec 4.2): [addPlayer] "appends a new Player" for the given
    user and leaves round and word alone; [updateMaster] "reassigns
    masterId" and leaves the word alone. *)
Class JoinContract `{Collaborators} : Prop := {
  addPlayer_id : ∀ userId name points r,
    player_id (svc_addPlayer userId name points r).1 = userId;
  addPlayer_round : ∀ userId name points r,
    round (svc_addPlayer userId name points r).2 = round r;
  addPlayer_word : ∀ userId name points r,
    currentWord (svc_addPlayer userId name points r).2 = currentWord r;
  updateMaster_master : ∀ playerId r,
    masterId (svc_updateMaster playerId r) = playerId;
  updateMaster_word : ∀ playerId r,
    currentWord (svc_updateMaster playerId r) = currentWord r
}.

(** Leaving (spec 4.2): [isPlayerInTurn] is the query "does this player
    hold the turn", and [removePlayer] "removes the player from turn
    order" without handing the turn on. *)
Class LeaveContract `{Collaborators} : Prop := {
  isPlayerInTurn_spec : ∀ playerId r,
    svc_isPlayerInTurn playerId r = true ↔ currentTurn r = playerId;
  removePlayer_turn : ∀ roomId playerId save r history,
    currentTurn (svc_removePlayer roomId playerId save r history).2.1
    = currentTurn r
}.

(** Guessing never moves the turn by itself (spec 4.1): only
    [updateNextTurn] "advances currentTurn". *)
Class TurnFrame `{Collaborators} : Prop := {
  addGuess_turn : ∀ char r,
    currentTurn (room_addGuess char r).2 = currentTurn r;
  checkWordGuess_turn : ∀ userId word r,
    currentTurn (room_checkWordGuess userId word r) = currentTurn r;
  checkGameFinished_turn : ∀ r,
    currentTurn (svc_checkGameFinished r).2 = currentTurn r
}.

(** The points with which a player stands in a room. *)
Definition standing (p : PlayerInfo) : string * Z :=
  (player_id p, player_points p).

(** Points on joining (spec 4.2): [addPlayer] "appends a new Player at
    the end of turn order" with the initial points it is given, and
    [updateMaster] changes nobody's points. *)
Class PointsContract `{Collaborators} : Prop := {
  addPlayer_points : ∀ userId name points r,
    player_points (svc_addPlayer userId name points r).1 = points;
  addPlayer_appends : ∀ userId name points r,
    players (svc_addPlayer userId name points r).2
    = players r ++ [(svc_addPlayer userId name points r).1];
  updateMaster_standing : ∀ playerId r,
    standing <$> players (svc_updateMaster playerId r)
    = standing <$> players r
}.

Fixpoint idsBefore (playerId : string) (ids : list string) : list string :=
  match ids with
  | [] => []
  | x :: ids' =>
      if bool_decide (x = playerId) then [] else x :: idsBefore playerId ids'
  end.

Fixpoint idsAfter (playerId : string) (ids : list string) : list string :=
  match ids with
  | [] => []
  | x :: ids' =>
      if bool_decide (x = playerId) then ids' else idsAfter playerId ids'
  end.

(** Modelled from the spec: the turn order is missing from the sources;
    it is "round-robin over players excluding master, in join order,
    wrapping".  The guesser next in line after [playerId] is the first
    player after them in join order, going round, who is neither the
    master nor [playerId]; there is none when no such player is in the
    room. *)
Definition nextGuesserAfter (playerId : string) (r : RoomEntity)
  : option string :=
  let ids := player_id <$> players r in
  head (filter (λ other, other ≠ masterId r ∧ other ≠ playerId)
               (idsAfter playerId ids ++ idsBefore playerId ids)).

(** Handing the turn on when its holder leaves (spec 8: "player removed
    while holding the turn → turn is reassigned to the next eligible
    guesser in the same call"): on the room that [removePlayer] leaves,
    [updateNextTurn] answers the guesser next in line after the leaver and
    makes them the turn holder. *)
Class ReassignContract `{Collaborators} : Prop := {
  removePlayer_handover : ∀ roomId playerId save r history successor,
    currentTurn r = playerId →
    nextGuesserAfter playerId r = Some successor →
    let left := (svc_removePlayer roomId playerId save r history).2.1 in
    (svc_updateNextTurn left).1 = successor ∧
    currentTurn (svc_updateNextTurn left).2 = successor
}.

(** ** A model of the collaborators that follows the specification *)
Module SpecModel.

Definition isLetter (c : Ascii.ascii) : bool :=
  let n := Ascii.nat_of_ascii c in
  (Nat.leb 65 n && Nat.leb n 90) || (Nat.leb 97 n && Nat.leb n 122).

Fixpoint allLetters (word : string) : bool :=
  match word with
  | EmptyString => true
  | String c word' => isLetter c && allLetters word'
  end.

(** Modelled from the spec: the word check of [RoomEntity.setWord] is
    missing from the sources; a word is accepted when it is "a non-empty
    alphabetic word". *)
Definition validWord (word : string) : bool :=
  match word with
  | EmptyString => false
  | String _ _ => allLetters word
  end.

Fixpoint wordLetters (word : string) : list WordLetter :=
  match word with
  | EmptyString => []
  | String c word' => mkWordLetter (String c EmptyString) false :: wordLetters word'
  end.

Fixpoint findPlayer (playerId : string) (l : list PlayerInfo)
  : option PlayerInfo :=
  match l with
  | [] => None
  | p :: l' =>
      if bool_decide (player_id p = playerId) then Some p
      else findPlayer playerId l'
  end.

(** The info of a player of the room; a player the room does not know
    is reported with the id alone. *)
Definition playerOf (playerId : string) (r : RoomEntity) : PlayerInfo :=
  default (mkPlayerInfo playerId "" 0 false) (findPlayer playerId (players r)).

(** Modelled from the spec: [RoomEntity.setWord] is missing from the
    sources; it is "valid only from the master, in AwaitingWord state,
    with a non-empty alphabetic word; transitions to InProgress, stores
    word as per-letter guessed=false"; the letters tried are "reset each
    word".  The room is given the word only: the request is the turn
    holder's (the endpoint's guard), so it is from the master when the
    master holds the turn, and is refused as forbidden otherwise.  A
    rejected word leaves the room as it is. *)
Definition setWord (word : string) (r : RoomEntity)
  : option HttpException * RoomEntity :=
  match currentWord r with
  | [] =>
      if bool_decide (currentTurn r = masterId r) then
        if validWord word then
          (None,
           mkRoomEntity (round r) (players r) (masterId r) (currentTurn r)
                        (wordLetters word) [] (creditedPlayer r) false
                        (nextInLine r))
        else (Some (BadRequestException "Invalid word"), r)
      else (Some ForbiddenException, r)
  | _ :: _ => (Some (BadRequestException "Word already set"), r)
  end.

(** Modelled from the spec: [RoomEntity.restartGame] is missing from the
    sources; it "resets round+1, clears word/guesses, keeps players and
    points, returns to AwaitingWord".  The turn holder is "the master
    when setting a word", so the turn is the master's again. *)
Definition restartGame (r : RoomEntity) : RoomEntity :=
  mkRoomEntity (round r + 1) (players r) (masterId r) (masterId r)
               [] [] (creditedPlayer r) false None.

Fixpoint nextAfter (current : string) (l : list string) : option string :=
  match l with
  | [] => None
  | x :: l' =>
      if bool_decide (x = current) then head l' else nextAfter current l'
  end.

Definition guessers (r : RoomEntity) : list string :=
  filter (λ playerId, playerId ≠ masterId r) (player_id <$> players r).

(** Modelled from the spec: [updateNextTurn] is missing from the
    sources; it "advances currentTurn to the next eligible guesser in
    round-robin order, skipping the master; wraps to the first guesser
    after the last.  Returns the new turn holder's id."  When the turn
    holder has left, the turn goes to who was next in line after them;
    when the turn holder is the master the first guesser is next; with
    no guesser at all the turn is the master's. *)
Definition updateNextTurn (r : RoomEntity) : string * RoomEntity :=
  let next :=
    match nextInLine r with
    | Some successor => successor
    | None =>
        default (default (masterId r) (head (guessers r)))
                (nextAfter (currentTurn r) (guessers r))
    end in
  (next,
   mkRoomEntity (round r) (players r) (masterId r) next (currentWord r)
                (guessedLetters r) (creditedPlayer r) (finishReported r)
                None).

(** Modelled from the spec: [checkGuessIsPresent] is missing from the
    sources; it is a "pure predicate — true if letter already in
    guessedLetters".  The case policy is applied "before comparison":
    the letter is looked up as the request normalised it. *)
Definition checkGuessIsPresent (char : string) (r : RoomEntity) : bool :=
  bool_decide (char ∈ guessedLetters r).

Fixpoint revealedPositions (char : string) (word : list WordLetter)
    (i : nat) : list nat :=
  match word with
  | [] => []
  | l :: word' =>
      if bool_decide (letter l = char) && negb (guessed l)
      then i :: revealedPositions char word' (S i)
      else revealedPositions char word' (S i)
  end.

Definition markGuessed (char : string) (l : WordLetter) : WordLetter :=
  if bool_decide (letter l = char) then mkWordLetter (letter l) true else l.

Definition award (playerId : string) (n : Z) (p : PlayerInfo) : PlayerInfo :=
  if bool_decide (player_id p = playerId)
  then mkPlayerInfo (player_id p) (player_name p) (player_points p + n)
                    (player_isMaster p)
  else p.

(** Modelled from the spec: [addGuess] is missing from the sources; it
    "marks all matching positions guessed, adds letter to
    guessedLetters, awards the acting player one point per revealed
    occurrence, returns GuessInfo"; the acting player is the turn
    holder, and a guess that reveals a letter makes them the credited
    player. *)
Definition addGuess (char : string) (r : RoomEntity)
  : GuessInfo * RoomEntity :=
  let positions := revealedPositions char (currentWord r) 0 in
  let hit := bool_decide (char ∈ (letter <$> currentWord r)) in
  let tried :=
    if bool_decide (char ∈ guessedLetters r) then guessedLetters r
    else guessedLetters r ++ [char] in
  let credited :=
    match positions with
    | [] => creditedPlayer r
    | _ :: _ => currentTurn r
    end in
  (mkGuessInfo char hit positions (currentTurn r),
   mkRoomEntity (round r)
                (award (currentTurn r) (Z.of_nat (length positions))
                   <$> players r)
                (masterId r) (currentTurn r)
                (markGuessed char <$> currentWord r)
                tried credited (finishReported r) (nextInLine r)).

Definition secretWord (r : RoomEntity) : string :=
  foldr (λ l acc, letter l +:+ acc) "" (currentWord r).

Definition lowerAscii (c : Ascii.ascii) : Ascii.ascii :=
  let n := Ascii.nat_of_ascii c in
  if Nat.leb 65 n && Nat.leb n 90 then Ascii.ascii_of_nat (n + 32)%nat else c.

Fixpoint lowerCase (word : string) : string :=
  match word with
  | EmptyString => EmptyString
  | String c word' => String (lowerAscii c) (lowerCase word')
  end.

(** Modelled from the spec: [checkWordGuess] is missing from the
    sources; it is a "whole-word attempt by any player"; "on success
    marks every letter guessed (equivalent to completing the word) and
    credits the guesser"; it "compares case/letter-normalized equality
    against the secret word": both are compared in lower case. *)
Definition checkWordGuess (userId word : string) (r : RoomEntity)
  : RoomEntity :=
  match currentWord r with
  | [] => r
  | _ :: _ =>
      if bool_decide (lowerCase word = lowerCase (secretWord r)) then
        mkRoomEntity (round r) (players r) (masterId r) (currentTurn r)
                     ((λ l, mkWordLetter (letter l) true) <$> currentWord r)
                     (guessedLetters r) userId (finishReported r)
                     (nextInLine r)
      else r
  end.

(** Modelled from the spec: [checkGameFinished] is missing from the
    sources; "the word is complete when every letter's guessed flag is
    true", the credited player "becomes the FinishState.player", and the
    finish state is produced "exactly once per completed word
    (re-querying after the first success returns none/empty)". *)
Definition checkGameFinished (r : RoomEntity)
  : option FinishState * RoomEntity :=
  match currentWord r with
  | [] => (None, r)
  | _ :: _ =>
      if forallb guessed (currentWord r) && negb (finishReported r) then
        (Some (mkFinishState (playerOf (creditedPlayer r) r) "completed"),
         mkRoomEntity (round r) (players r) (masterId r) (currentTurn r)
                      (currentWord r) (guessedLetters r) (creditedPlayer r)
                      true (nextInLine r))
      else (None, r)
  end.

(** Modelled from the spec: [addPlayer] is missing from the sources; it
    "appends a new Player at the end of turn order" with the initial
    points it is given. *)
Definition addPlayer (userId name : string) (points : Z) (r : RoomEntity)
  : PlayerInfo * RoomEntity :=
  let player :=
    mkPlayerInfo userId name points (bool_decide (masterId r = userId)) in
  (player,
   mkRoomEntity (round r) (players r ++ [player]) (masterId r)
                (currentTurn r) (currentWord r) (guessedLetters r)
                (creditedPlayer r) (finishReported r) (nextInLine r)).

Definition flagMaster (playerId : string) (p : PlayerInfo) : PlayerInfo :=
  mkPlayerInfo (player_id p) (player_name p) (player_points p)
               (bool_decide (player_id p = playerId)).

(** Modelled from the spec: [updateMaster] is missing from the sources;
    it "reassigns masterId", from which [isMaster] is derived. *)
Definition updateMaster (playerId : string) (r : RoomEntity) : RoomEntity :=
  mkRoomEntity (round r) (flagMaster playerId <$> players r) playerId
               (currentTurn r) (currentWord r) (guessedLetters r)
               (creditedPlayer r) (finishReported r) (nextInLine r).

(** Modelled from the spec: [removePlayer] is missing from the sources;
    it "removes the player from turn order; if save is true, records a
    ReturningPlayerRecord snapshot (points, was-master, round) for later
    rejoin; always returns the removed player's last known info".  When
    the leaver holds the turn the room notes who is next in line after
    them, for the [updateNextTurn] that follows. *)
Definition removePlayer (roomId playerId : string) (save : bool)
    (r : RoomEntity) (history : gmap string ReturningPlayer)
  : ReturningPlayer * (RoomEntity * gmap string ReturningPlayer) :=
  let leaving :=
    mkReturningPlayer roomId (playerOf playerId r)
                      (bool_decide (masterId r = playerId)) (round r) in
  (leaving,
   (mkRoomEntity (round r)
                 (filter (λ p, player_id p ≠ playerId) (players r))
                 (masterId r) (currentTurn r) (currentWord r)
                 (guessedLetters r) (creditedPlayer r) (finishReported r)
                 (if bool_decide (currentTurn r = playerId)
                  then nextGuesserAfter playerId r else nextInLine r),
    if save then <[playerId := leaving]> history else history)).

(** Modelled from the spec: [isPlayerInTurn] and the guards are missing
    from the sources; the guards "verify the caller is the current
    turn-holder or the room master before invoking mutating
    operations". *)
Definition isPlayerInTurn (playerId : string) (r : RoomEntity) : bool :=
  bool_decide (currentTurn r = playerId).

Definition isPlayerMaster (playerId : string) (r : RoomEntity) : bool :=
  bool_decide (masterId r = playerId).

#[global] Instance collaborators : Collaborators := {|
  svc_addPlayer := addPlayer;
  svc_updateMaster := updateMaster;
  svc_removePlayer := removePlayer;
  svc_isPlayerInTurn := isPlayerInTurn;
  svc_updateNextTurn := updateNextTurn;
  svc_checkGameFinished := checkGameFinished;
  room_restartGame := restartGame;
  room_setWord := setWord;
  room_updateNextTurn := updateNextTurn;
  room_checkGuessIsPresent := checkGuessIsPresent;
  room_addGuess := addGuess;
  room_checkWordGuess := checkWordGuess;
  guard_isPlayerInTurn := isPlayerInTurn;
  guard_isPlayerMaster := isPlayerMaster
|}.

(** A room as [createRoom] leaves it: "one player (the creator) as
    master, round 0, AwaitingWord"; the creator holds the turn, so that
    they can set the first word. *)
Definition newRoom (masterUserId masterName : string) : RoomEntity :=
  mkRoomEntity 0 [mkPlayerInfo masterUserId masterName 0 true] masterUserId
               masterUserId [] [] masterUserId false None.

Definition worldWith (roomId : string) (r : RoomEntity) : World :=
  mkWorld (mkGameService {[ roomId := r ]} ∅) [].

(** The world a handler leaves. *)
Definition after {A} (m : M A) (w : World) : World := (m w).2.
End SpecModel.

(** ** A game played on the model

    Mia creates room [r1] and is its master; Gus joins; Mia sets the word
    "cat"; Gus guesses its letters; Mia restarts the game. *)
Module Scenario.
Import SpecModel.

Definition created : World := worldWith "r1" (newRoom "M" "Mia").
Definition joined : World := after (Controller.joinRoom "r1" "Gus" "G") created.
Definition wordSet : World := after (Controller.postWord "M" "r1" "cat") joined.
Definition guessedC : World := after (Controller.postGuess "G" "r1" "c") wordSet.
Definition guessedCA : World := after (Controller.postGuess "G" "r1" "a") guessedC.
Definition finished : World := after (Controller.postGuess "G" "r1" "t") guessedCA.
Definition restarted : World := after (Controller.putRestartGame "M" "r1") finished.

(** Another game: Gus and Hal both join before Mia sets the word, and
    the first turn goes to Gus. *)
Definition threePlayers : World :=
  after (Controller.postWord "M" "r1" "cat")
        (after (Controller.joinRoom "r1" "Hal" "H") joined).


(** The room of a world, for the statements below. *)
Definition roomIn (w : World) : RoomEntity :=
  default (newRoom "" "") (rooms (service w) !! "r1").

(** Gus left room [r1] in round 0, where he was master with 7 points;
    Zoe left another room, [r0], in its round 0, master there with 5
    points.  Both come to room [r1], which Mia has just created. *)
Definition gusRecord : ReturningPlayer :=
  mkReturningPlayer "r1" (mkPlayerInfo "G" "Gus" 7 true) true 0.

Definition zoeRecord : ReturningPlayer :=
  mkReturningPlayer "r0" (mkPlayerInfo "Z" "Zoe" 5 true) true 0.

Definition createdWithHistory : World :=
  mkWorld (mkGameService {[ "r1" := newRoom "M" "Mia" ]}
                         (<[ "Z" := zoeRecord ]> {[ "G" := gusRecord ]}))
          [].
End Scenario.

(** ** Reading a room *)

(** [getRoom] (lines 34-39): the room as the registry holds it.  As in
    [restartGame], the DTO made by [roomEntityToDto] is kept as the
    snapshot of the entity it is made from. *)
Definition getRoom (roomId : string) : M RoomEntity :=
  room ← Service.getRoomById roomId;
  readRoom room (λ r, r).

(** ** What a request may change *)

(** The request left the service as it was and broadcast nothing. *)
Definition untouched {A} (w : World) (result : Outcome A * World) : Prop :=
  service result.2 = service w ∧
  broadcasts (trace result.2) = broadcasts (trace w).

(** From [w] to [w'] only the room [roomId] may have moved: every other
    room is as it was, no room id was added or dropped, and the trace was
    only extended. *)
Definition confinedTo (roomId : string) (w w' : World) : Prop :=
  (∀ other, other ≠ roomId →
     rooms (service w') !! other = rooms (service w) !! other) ∧
  dom (rooms (service w')) = dom (rooms (service w)) ∧
  ∃ effects, trace w' = trace w ++ effects.

(** A handler whose every run, returning or throwing, stays within [R]. *)
Definition respects (R : World → World → Prop) {A} (m : M A) : Prop :=
  ∀ w, R w (m w).2.

(** A relation between the world before and the world after that holds
    of doing nothing, composes, and holds of the two things a handler
    does through the room it addresses: recording an effect and moving
    that room. *)
Class RequestFrame (roomId : string) (R : World → World → Prop) : Prop := {
  frame_refl : ∀ w, R w w;
  frame_trans : ∀ w1 w2 w3, R w1 w2 → R w2 w3 → R w1 w3;
  frame_record : ∀ w e, R w (mkWorld (service w) (trace w ++ [e]));
  frame_room : ∀ w r r',
    rooms (service w) !! roomId = Some r →
    R w (mkWorld (storeRoom roomId r' (service w)) (trace w))
}.

(** More of the game of [Scenario]: Gus comes back, as the returning
    master of round 0, to a room in which Mia has already set a word. *)
Module Replay.
Import SpecModel Scenario.

Definition wordSetByMia : World :=
  after (Controller.postWord "M" "r1" "cat") createdWithHistory.
End Replay.

(** ** Running handlers: one equation per primitive *)

Lemma bind_returned {A B} (m : M A) (f : A → M B) w a w' :
  m w = (Returned a, w') → (m ≫= f) w = f a w'.
Proof. intros Hm. unfold mbind, M_bind. by rewrite Hm. Qed.

Lemma bind_thrown {A B} (m : M A) (f : A → M B) w e w' :
  m w = (Thrown e, w') → (m ≫= f) w = (Thrown e, w').
Proof. intros Hm. unfold mbind, M_bind. by rewrite Hm. Qed.

Lemma lookup_storeRoom roomId r s : rooms (storeRoom roomId r s) !! roomId = Some r.
Proof. apply lookup_insert_eq. Qed.

Lemma storeRoom_storeRoom roomId r1 r2 s :
  storeRoom roomId r2 (storeRoom roomId r1 s) = storeRoom roomId r2 s.
Proof. unfold storeRoom. simpl. by rewrite insert_insert_eq. Qed.

Lemma storeRoom_same roomId r s :
  rooms s !! roomId = Some r → storeRoom roomId r s = s.
Proof.
  intros Hr. destruct s as [rs h]. unfold storeRoom. simpl in *.
  by rewrite insert_id.
Qed.

Lemma record_run e w :
  record e w = (Returned (), mkWorld (service w) (trace w ++ [e])).
Proof. reflexivity. Qed.

Lemma onRoom_run {A} roomId (f : RoomEntity → A * RoomEntity) w r :
  rooms (service w) !! roomId = Some r →
  onRoom roomId f w =
    (Returned (f r).1, mkWorld (storeRoom roomId (f r).2 (service w)) (trace w)).
Proof.
  intros Hr. unfold onRoom, getService, mbind, M_bind. rewrite Hr.
  by destruct (f r).
Qed.

Lemma readRoom_run {A} roomId (f : RoomEntity → A) w r :
  rooms (service w) !! roomId = Some r →
  readRoom roomId f w = (Returned (f r), w).
Proof.
  intros Hr. unfold readRoom, getService, mbind, M_bind. by rewrite Hr.
Qed.

Lemma readRoom_missing {A} roomId (f : RoomEntity → A) w :
  rooms (service w) !! roomId = None →
  readRoom roomId f w = (Thrown NotFoundException, w).
Proof.
  intros Hr. unfold readRoom, getService, mbind, M_bind. by rewrite Hr.
Qed.

(** A collaborator call: the call is recorded, then the room moves. *)
Lemma call_onRoom_run {A} c roomId (f : RoomEntity → A * RoomEntity) w r :
  rooms (service w) !! roomId = Some r →
  (invoke c;; onRoom roomId f) w =
    (Returned (f r).1,
     mkWorld (storeRoom roomId (f r).2 (service w)) (trace w ++ [Invoke c])).
Proof.
  intros Hr. unfold invoke. erewrite bind_returned by apply record_run.
  by erewrite onRoom_run by exact Hr.
Qed.

Lemma call_readRoom_run {A} c roomId (f : RoomEntity → A) w r :
  rooms (service w) !! roomId = Some r →
  (invoke c;; readRoom roomId f) w =
    (Returned (f r), mkWorld (service w) (trace w ++ [Invoke c])).
Proof.
  intros Hr. unfold invoke. erewrite bind_returned by apply record_run.
  by erewrite readRoom_run by exact Hr.
Qed.

Lemma emit_run b w :
  emit b w = (Returned (), mkWorld (service w) (trace w ++ [Emit b])).
Proof. reflexivity. Qed.

Lemma broadcasts_app t1 t2 : broadcasts (t1 ++ t2) = broadcasts t1 ++ broadcasts t2.
Proof.
  induction t1 as [|[c|b] t1 IH]; simpl; [done| done |by rewrite IH].
Qed.

Lemma calls_app t1 t2 : calls (t1 ++ t2) = calls t1 ++ calls t2.
Proof.
  induction t1 as [|[c|b] t1 IH]; simpl; [done|by rewrite IH|done].
Qed.

Lemma broadcasts_emits bs : broadcasts (Emit <$> bs) = bs.
Proof. induction bs as [|b bs IH]; [done|]. simpl. f_equal. exact IH. Qed.

Lemma broadcasts_invokes cs : broadcasts (Invoke <$> cs) = [].
Proof. induction cs as [|c cs IH]; simpl; done. Qed.

Lemma calls_invokes cs : calls (Invoke <$> cs) = cs.
Proof. induction cs as [|c cs IH]; [done|]. simpl. f_equal. exact IH. Qed.

Lemma calls_emits bs : calls (Emit <$> bs) = [].
Proof. induction bs as [|b bs IH]; simpl; done. Qed.

(** The room a step acts on is either the one found at the start of the
    request or the one the previous step stored. *)
Ltac room_here :=
  simpl; first [eassumption | apply lookup_storeRoom | apply lookup_insert_eq].

Ltac step lem := erewrite bind_returned by (eapply lem; room_here).
Ltac step_emit := erewrite bind_returned by apply emit_run.

Section Execution.
Context `{Collaborators}.

Lemma getRoomById_run roomId w r :
  rooms (service w) !! roomId = Some r →
  Service.getRoomById roomId w =
    (Returned roomId,
     mkWorld (service w) (trace w ++ [Invoke (SvcGetRoomById roomId)])).
Proof. intros Hr. unfold Service.getRoomById. by erewrite call_readRoom_run. Qed.

(** Each synthetic guess is the answer of [addGuess] to the letter at the
    same position of the word. *)
Lemma revealAll_pointwise word r :
  Forall2 (λ l guessInfo, ∃ r0, guessInfo = (room_addGuess (letter l) r0).1)
          word (revealAll word r).1.
Proof.
  revert r. induction word as [|l word IH]; intros r; simpl; [constructor|].
  destruct (room_addGuess (letter l) r) as [g r'] eqn:Hg.
  specialize (IH r'). destruct (revealAll word r') as [rest r''].
  simpl in *. constructor; [|done]. exists r. by rewrite Hg.
Qed.

Lemma setWord_run room word w r :
  rooms (service w) !! room = Some r →
  Room.setWord room word w =
    (match (room_setWord word r).1 with
     | Some e => Thrown e
     | None => Returned ()
     end,
     mkWorld (storeRoom room (room_setWord word r).2 (service w))
             (trace w ++ [Invoke (RoomSetWord room word)])).
Proof.
  intros Hr. unfold Room.setWord, invoke.
  erewrite bind_returned by apply record_run.
  erewrite bind_returned by (eapply onRoom_run; room_here).
  by destruct (room_setWord word r).1.
Qed.

Lemma mapM_addGuess_run room word w r :
  rooms (service w) !! room = Some r →
  mapM (λ l, Room.addGuess room (letter l)) word w =
    (Returned (revealAll word r).1,
     mkWorld (storeRoom room (revealAll word r).2 (service w))
             (trace w ++ (Invoke <$> (RoomAddGuess room <$> (letter <$> word))))).
Proof.
  revert w r. induction word as [|l word IH]; intros w r Hr.
  - simpl. unfold mret, M_ret. rewrite app_nil_r.
    rewrite storeRoom_same by done. by destruct w.
  - unfold mapM; fold (mapM (λ l, Room.addGuess room (letter l))).
    unfold Room.addGuess at 1.
    erewrite bind_returned by (by apply call_onRoom_run).
    erewrite bind_returned by (apply IH; apply lookup_storeRoom).
    simpl. destruct (room_addGuess (letter l) r) as [g r']. simpl.
    destruct (revealAll word r') as [rest r'']. simpl.
    unfold mret, M_ret. rewrite storeRoom_storeRoom.
    by rewrite <- app_assoc.
Qed.

Lemma forEach_newGuess_run room (infos : list GuessInfo) w :
  forEach (λ guessInfo, Gateway.newGuess room guessInfo) infos w =
    (Returned (),
     mkWorld (service w) (trace w ++ (Emit <$> (GwNewGuess room <$> infos)))).
Proof.
  revert w. induction infos as [|g infos IH]; intros w; simpl.
  - unfold mret, M_ret. rewrite app_nil_r. by destruct w.
  - unfold Gateway.newGuess at 1.
    erewrite bind_returned by apply emit_run. rewrite IH. simpl.
    by rewrite <- app_assoc.
Qed.
End Execution.

Section Finishing.
Context `{Collaborators}.

Lemma checkGameFinished_finished room w r fs r1 :
  rooms (service w) !! room = Some r →
  svc_checkGameFinished r = (Some fs, r1) →
  Controller.checkGameFinished room w =
    (Returned true,
     mkWorld (storeRoom room (revealAll (currentWord r1) r1).2 (service w))
             (trace w ++ finishSequence room (currentWord r1)
                           (revealAll (currentWord r1) r1).1 fs)).
Proof.
  intros Hr Hfs. unfold Controller.checkGameFinished, Room.id.
  unfold Service.checkGameFinished.
  step @call_onRoom_run.
  rewrite Hfs. simpl.
  unfold Room.currentWord.
  step @readRoom_run.
  step @mapM_addGuess_run.
  erewrite bind_returned by apply forEach_newGuess_run.
  unfold Gateway.finishGame, Gateway.updatePlayer.
  step_emit.
  step_emit.
  unfold mret, M_ret, finishSequence. simpl.
  rewrite storeRoom_storeRoom. by rewrite <- !app_assoc.
Qed.

Lemma checkGameFinished_unfinished room w r r1 :
  rooms (service w) !! room = Some r →
  svc_checkGameFinished r = (None, r1) →
  Controller.checkGameFinished room w =
    (Returned false,
     mkWorld (storeRoom room r1 (service w))
             (trace w ++ [Invoke (SvcCheckGameFinished room)])).
Proof.
  intros Hr Hfs. unfold Controller.checkGameFinished, Room.id.
  unfold Service.checkGameFinished.
  step @call_onRoom_run.
  by rewrite Hfs.
Qed.

Lemma finishSequence_broadcasts room word revealed fs :
  broadcasts (finishSequence room word revealed fs) =
    (GwNewGuess room <$> revealed)
    ++ [GwFinishGame room fs; GwUpdatePlayer room (finish_player fs)].
Proof.
  unfold finishSequence. rewrite !broadcasts_app. simpl.
  by rewrite broadcasts_invokes, broadcasts_emits.
Qed.

Lemma finishSequence_calls room word revealed fs :
  calls (finishSequence room word revealed fs) =
    SvcCheckGameFinished room :: (RoomAddGuess room <$> (letter <$> word)).
Proof.
  unfold finishSequence. rewrite !calls_app. simpl.
  by rewrite calls_invokes, calls_emits, app_nil_r.
Qed.

(** The letter-guess handler up to the completion check, for a letter
    that was not tried before. *)
Lemma newGuess_fresh roomId char w r :
  rooms (service w) !! roomId = Some r →
  room_checkGuessIsPresent char r = false →
  Controller.newGuess roomId char w =
    (finished ← Controller.checkGameFinished roomId;
     (if finished : bool then mret ()
      else next ← Room.updateNextTurn roomId;
           Gateway.newTurn (Room.id roomId) next);;
     mret (room_addGuess char r).1)
    (mkWorld (storeRoom roomId (room_addGuess char r).2 (service w))
             (trace w ++ [Invoke (SvcGetRoomById roomId);
                          Invoke (RoomCheckGuessIsPresent roomId char);
                          Invoke (RoomAddGuess roomId char);
                          Emit (GwNewGuess roomId (room_addGuess char r).1)])).
Proof.
  intros Hr Hfresh. unfold Controller.newGuess.
  step @getRoomById_run.
  unfold Room.checkGuessIsPresent.
  step @call_readRoom_run.
  rewrite Hfresh. unfold Room.addGuess.
  step @call_onRoom_run.
  unfold Gateway.newGuess.
  step_emit.
  simpl. by rewrite <- !app_assoc.
Qed.
End Finishing.

(** ** Letter guesses *)
Section LetterGuess.
Context `{Collaborators}.

(** C1.  A letter guess after which the service reports the game as
    finished: the controller answers with the guess, issues one synthetic
    guess per letter of the word in word order (so every letter still
    hidden is among them), broadcasts each of their results in that same
    order, then the finish event, then the updated player; it neither
    advances the turn nor broadcasts a new turn. *)
Theorem newGuess_completing_reveals_word roomId char w r guessInfo r1 fs r2 :
  rooms (service w) !! roomId = Some r →
  room_checkGuessIsPresent char r = false →
  room_addGuess char r = (guessInfo, r1) →
  svc_checkGameFinished r1 = (Some fs, r2) →
  ∃ revealed r3 w' effects,
    revealAll (currentWord r2) r2 = (revealed, r3) ∧
    Controller.newGuess roomId char w = (Returned guessInfo, w') ∧
    service w' = storeRoom roomId r3 (service w) ∧
    trace w' = trace w ++ effects ∧
    calls effects =
      [SvcGetRoomById roomId; RoomCheckGuessIsPresent roomId char;
       RoomAddGuess roomId char; SvcCheckGameFinished roomId]
      ++ (RoomAddGuess roomId <$> (letter <$> currentWord r2)) ∧
    broadcasts effects =
      [GwNewGuess roomId guessInfo]
      ++ (GwNewGuess roomId <$> revealed)
      ++ [GwFinishGame roomId fs; GwUpdatePlayer roomId (finish_player fs)] ∧
    Forall2 (λ l info, ∃ r0, info = (room_addGuess (letter l) r0).1)
            (currentWord r2) revealed ∧
    (∀ l, l ∈ currentWord r2 → guessed l = false →
          RoomAddGuess roomId (letter l) ∈ calls effects) ∧
    (∀ c, c ∈ calls effects → isTurnAdvance c = false) ∧
    (∀ b, b ∈ broadcasts effects → isNewTurn b = false).
Proof.
  intros Hr Hfresh Hguess Hfs.
  destruct (revealAll (currentWord r2) r2) as [revealed r3] eqn:Hreveal.
  pose proof (newGuess_fresh roomId char w r Hr Hfresh) as Hrun.
  rewrite Hguess in Hrun. simpl in Hrun.
  erewrite bind_returned in Hrun
    by (eapply checkGameFinished_finished; [room_here | exact Hfs]).
  rewrite Hreveal in Hrun. simpl in Hrun.
  rewrite storeRoom_storeRoom, <- app_assoc in Hrun.
  eexists revealed, r3, _, _.
  split; [done|]. split; [exact Hrun|]. split; [done|]. split; [done|].
  assert (Hcalls :
    calls ([Invoke (SvcGetRoomById roomId);
            Invoke (RoomCheckGuessIsPresent roomId char);
            Invoke (RoomAddGuess roomId char);
            Emit (GwNewGuess roomId guessInfo)]
           ++ finishSequence roomId (currentWord r2) revealed fs) =
    [SvcGetRoomById roomId; RoomCheckGuessIsPresent roomId char;
     RoomAddGuess roomId char; SvcCheckGameFinished roomId]
    ++ (RoomAddGuess roomId <$> (letter <$> currentWord r2))).
  { rewrite calls_app, finishSequence_calls. reflexivity. }
  assert (Hbroadcasts :
    broadcasts ([Invoke (SvcGetRoomById roomId);
                 Invoke (RoomCheckGuessIsPresent roomId char);
                 Invoke (RoomAddGuess roomId char);
                 Emit (GwNewGuess roomId guessInfo)]
                ++ finishSequence roomId (currentWord r2) revealed fs) =
    [GwNewGuess roomId guessInfo]
    ++ (GwNewGuess roomId <$> revealed)
    ++ [GwFinishGame roomId fs; GwUpdatePlayer roomId (finish_player fs)]).
  { rewrite broadcasts_app, finishSequence_broadcasts. reflexivity. }
  rewrite Hcalls, Hbroadcasts.
  split; [done|]. split; [done|].
  split.
  { pose proof (revealAll_pointwise (currentWord r2) r2) as Hpt.
    by rewrite Hreveal in Hpt. }
  split.
  { intros l Hl _. apply elem_of_app. right.
    apply list_elem_of_fmap. exists (letter l). split; [done|].
    apply list_elem_of_fmap. by exists l. }
  split.
  { intros c Hc. apply elem_of_app in Hc as [Hc|Hc].
    - repeat (apply elem_of_cons in Hc as [->|Hc]; [done|]).
      by apply elem_of_nil in Hc.
    - apply list_elem_of_fmap in Hc as (x & -> & _). done. }
  intros b Hb. apply elem_of_cons in Hb as [->|Hb]; [done|].
  apply elem_of_app in Hb as [Hb|Hb].
  - apply list_elem_of_fmap in Hb as (x & -> & _). done.
  - repeat (apply elem_of_cons in Hb as [->|Hb]; [done|]).
    by apply elem_of_nil in Hb.
Qed.
End LetterGuess.

Section LetterGuessOrder.
Context `{Collaborators}.

(** C2.  A letter that is already among the room's guessed letters is
    refused with a bad-request exception; the service state is exactly
    what it was, nothing is broadcast, and the only calls made are the
    room lookup and the duplicate check (no guess, no point, no turn
    advance). *)
Theorem newGuess_duplicate_rejected `{!GuessContract} roomId char w r :
  rooms (service w) !! roomId = Some r →
  char ∈ guessedLetters r →
  ∃ w',
    Controller.newGuess roomId char w =
      (Thrown (BadRequestException (alreadyGuessed char)), w') ∧
    service w' = service w ∧
    broadcasts (trace w') = broadcasts (trace w) ∧
    calls (trace w') =
      calls (trace w)
      ++ [SvcGetRoomById roomId; RoomCheckGuessIsPresent roomId char].
Proof.
  intros Hr Hin. apply checkGuessIsPresent_spec in Hin.
  eexists. split.
  { unfold Controller.newGuess.
    step @getRoomById_run.
    unfold Room.checkGuessIsPresent.
    step @call_readRoom_run.
    rewrite Hin. unfold throw. reflexivity. }
  simpl. rewrite <- !app_assoc, broadcasts_app, calls_app. simpl.
  by rewrite app_nil_r.
Qed.

(** C4.  A letter guess that is neither a duplicate nor the last one:
    the room's guess transition is applied, its result is broadcast, the
    completion check is made, and only then the turn is advanced, once,
    and the new turn holder broadcast. *)
Theorem newGuess_continuing_order roomId char w r guessInfo r1 r2 next r3 :
  rooms (service w) !! roomId = Some r →
  room_checkGuessIsPresent char r = false →
  room_addGuess char r = (guessInfo, r1) →
  svc_checkGameFinished r1 = (None, r2) →
  room_updateNextTurn r2 = (next, r3) →
  ∃ w' effects,
    Controller.newGuess roomId char w = (Returned guessInfo, w') ∧
    service w' = storeRoom roomId r3 (service w) ∧
    trace w' = trace w ++ effects ∧
    effects =
      [Invoke (SvcGetRoomById roomId);
       Invoke (RoomCheckGuessIsPresent roomId char);
       Invoke (RoomAddGuess roomId char);
       Emit (GwNewGuess roomId guessInfo);
       Invoke (SvcCheckGameFinished roomId);
       Invoke (RoomUpdateNextTurn roomId);
       Emit (GwNewTurn roomId next)] ∧
    length (filter (λ c, isTurnAdvance c = true) (calls effects)) = 1%nat.
Proof.
  intros Hr Hfresh Hguess Hfs Hnext.
  pose proof (newGuess_fresh roomId char w r Hr Hfresh) as Hrun.
  rewrite Hguess in Hrun. simpl in Hrun.
  erewrite bind_returned in Hrun
    by (eapply checkGameFinished_unfinished; [room_here | exact Hfs]).
  unfold Room.updateNextTurn, Gateway.newTurn, Room.id in Hrun.
  erewrite bind_returned in Hrun.
  2:{ step @call_onRoom_run. apply emit_run. }
  rewrite Hnext in Hrun. simpl in Hrun.
  rewrite !storeRoom_storeRoom, <- !app_assoc in Hrun. simpl in Hrun.
  eexists _, _. split; [exact Hrun|]. by repeat split.
Qed.
End LetterGuessOrder.

(** ** Joining a room *)
Section Join.
Context `{Collaborators}.

Lemma getReturningPlayer_run userId w :
  Service.getReturningPlayer userId w =
    (Returned (returningPlayers (service w) !! userId),
     mkWorld (service w) (trace w ++ [Invoke (SvcGetReturningPlayer userId)])).
Proof. reflexivity. Qed.

Lemma joinRoom_plain roomId name userId w r :
  rooms (service w) !! roomId = Some r →
  let returning := returningPlayers (service w) !! userId in
  let points := joinPoints roomId returning in
  let added := svc_addPlayer userId name points r in
  takesOver returning added.2 = false →
  Controller.joinRoom roomId name userId w =
    (Returned added.1,
     mkWorld (storeRoom roomId added.2 (service w))
             (trace w ++ joinPrefix roomId name userId points added.1)).
Proof.
  intros Hr returning points added Hno. unfold Controller.joinRoom.
  erewrite bind_returned by apply getReturningPlayer_run.
  fold returning. change (match returning with
    | Some rp => if bool_decide (rp_roomId rp = roomId)
                 then player_points (rp_player rp) else 0
    | None => 0 end) with points.
  unfold Service.addPlayer. step @call_onRoom_run.
  unfold Gateway.join. step_emit.
  step @getRoomById_run.
  unfold Room.round. step @readRoom_run.
  fold added. unfold takesOver in Hno.
  destruct returning as [rp|]; [rewrite Hno|];
    unfold mbind, M_bind, mret, M_ret, joinPrefix; simpl;
    by rewrite <- !app_assoc.
Qed.

Lemma joinRoom_takeover roomId name userId w r :
  rooms (service w) !! roomId = Some r →
  let returning := returningPlayers (service w) !! userId in
  let points := joinPoints roomId returning in
  let added := svc_addPlayer userId name points r in
  let promoted := svc_updateMaster (player_id added.1) added.2 in
  takesOver returning added.2 = true →
  Controller.joinRoom roomId name userId w =
    (Returned added.1,
     match currentWord promoted with
     | [] =>
         mkWorld (storeRoom roomId (set_currentTurn userId promoted) (service w))
                 (trace w ++ joinPrefix roomId name userId points added.1
                  ++ [Invoke (SvcUpdateMaster roomId (player_id added.1));
                      Emit (GwUpdateMaster roomId (player_id added.1));
                      Emit (GwNewTurn roomId userId)])
     | _ :: _ =>
         mkWorld (storeRoom roomId promoted (service w))
                 (trace w ++ joinPrefix roomId name userId points added.1
                  ++ [Invoke (SvcUpdateMaster roomId (player_id added.1));
                      Emit (GwUpdateMaster roomId (player_id added.1))])
     end).
Proof.
  intros Hr returning points added promoted Hyes.
  unfold Controller.joinRoom.
  erewrite bind_returned by apply getReturningPlayer_run.
  fold returning. change (match returning with
    | Some rp => if bool_decide (rp_roomId rp = roomId)
                 then player_points (rp_player rp) else 0
    | None => 0 end) with points.
  unfold Service.addPlayer. step @call_onRoom_run.
  unfold Gateway.join. step_emit.
  step @getRoomById_run.
  unfold Room.round. step @readRoom_run.
  fold added. unfold takesOver in Hyes.
  destruct returning as [rp|]; [|done]. rewrite Hyes.
  unfold Service.updateMaster, Gateway.updateMaster, Room.id,
    Room.currentWord, Room.assignCurrentTurn, Gateway.newTurn.
  destruct (currentWord promoted) as [|l word] eqn:Hword.
  - erewrite bind_returned.
    2:{ step @call_onRoom_run. step_emit. step @readRoom_run.
        simpl. fold promoted. rewrite Hword.
        step @onRoom_run. apply emit_run. }
    unfold mret, M_ret, joinPrefix. simpl. fold promoted.
    rewrite !storeRoom_storeRoom, <- !app_assoc. reflexivity.
  - erewrite bind_returned.
    2:{ step @call_onRoom_run. step_emit. step @readRoom_run.
        simpl. fold promoted. rewrite Hword. reflexivity. }
    unfold mret, M_ret, joinPrefix. simpl. fold promoted.
    rewrite !storeRoom_storeRoom, <- !app_assoc. reflexivity.
Qed.
End Join.

(** Membership in an explicit list. *)
Ltac in_list :=
  simpl; repeat first [apply list_elem_of_here | apply list_elem_of_further].

Section JoinClaims.
Context `{Collaborators}.

(** C6.  The joining player starts with the points of the
    returning-player record when the record is of the joined room, and
    with 0 when there is no record or the record is of another room:
    these are the points handed to [addPlayer], the points of the player
    the request answers with, and the points with which the player
    stands, last in turn order, in the room after the join, where
    everybody else stands as before. *)
Theorem joinRoom_initial_points `{!JoinContract} `{!PointsContract}
    roomId name userId w r :
  rooms (service w) !! roomId = Some r →
  ∃ points player r' w' effects,
    Controller.joinRoom roomId name userId w = (Returned player, w') ∧
    player = (svc_addPlayer userId name points r).1 ∧
    standing player = (userId, points) ∧
    rooms (service w') !! roomId = Some r' ∧
    standing <$> players r' = (standing <$> players r) ++ [(userId, points)] ∧
    trace w' = trace w ++ effects ∧
    SvcAddPlayer roomId userId name points ∈ calls effects ∧
    (∀ rp, returningPlayers (service w) !! userId = Some rp →
           rp_roomId rp = roomId → points = player_points (rp_player rp)) ∧
    (∀ rp, returningPlayers (service w) !! userId = Some rp →
           rp_roomId rp ≠ roomId → points = 0) ∧
    (returningPlayers (service w) !! userId = None → points = 0).
Proof.
  intros Hr.
  set (returning := returningPlayers (service w) !! userId).
  set (points := joinPoints roomId returning).
  set (added := svc_addPlayer userId name points r).
  assert (Hpoints :
    (∀ rp, returning = Some rp → rp_roomId rp = roomId →
           points = player_points (rp_player rp)) ∧
    (∀ rp, returning = Some rp → rp_roomId rp ≠ roomId → points = 0) ∧
    (returning = None → points = 0)).
  { unfold points, joinPoints. repeat split.
    - intros rp -> Heq. by rewrite bool_decide_eq_true_2.
    - intros rp -> Hne. by rewrite bool_decide_eq_false_2.
    - by intros ->. }
  assert (Hstanding : standing added.1 = (userId, points)).
  { unfold standing, added. by rewrite addPlayer_id, addPlayer_points. }
  assert (Hadded :
    standing <$> players added.2
    = (standing <$> players r) ++ [(userId, points)]).
  { unfold added. rewrite addPlayer_appends, fmap_app. simpl.
    fold added. by rewrite Hstanding. }
  destruct (takesOver returning added.2) eqn:Htake.
  - pose proof (joinRoom_takeover roomId name userId w r Hr Htake) as Hrun.
    fold returning points added in Hrun.
    set (promoted := svc_updateMaster (player_id added.1) added.2) in *.
    assert (Hpromoted :
      standing <$> players promoted
      = (standing <$> players r) ++ [(userId, points)]).
    { unfold promoted. by rewrite updateMaster_standing. }
    destruct (currentWord promoted).
    + eexists points, added.1, (set_currentTurn userId promoted), _, _.
      split; [exact Hrun|]. split; [done|]. split; [done|].
      split; [apply lookup_storeRoom|]. split; [exact Hpromoted|].
      split; [done|]. split; [unfold joinPrefix; in_list|]. exact Hpoints.
    + eexists points, added.1, promoted, _, _.
      split; [exact Hrun|]. split; [done|]. split; [done|].
      split; [apply lookup_storeRoom|]. split; [exact Hpromoted|].
      split; [done|]. split; [unfold joinPrefix; in_list|]. exact Hpoints.
  - pose proof (joinRoom_plain roomId name userId w r Hr Htake) as Hrun.
    fold returning points added in Hrun.
    eexists points, added.1, added.2, _, _.
    split; [exact Hrun|]. split; [done|]. split; [done|].
    split; [apply lookup_storeRoom|]. split; [exact Hadded|].
    split; [done|]. split; [unfold joinPrefix; in_list|]. exact Hpoints.
Qed.

(** A returning master of the room's current round takes the room over,
    whatever room the record was saved for. *)
Lemma joinRoom_takeover_summary `{!JoinContract} roomId name userId w r rp :
  rooms (service w) !! roomId = Some r →
  returningPlayers (service w) !! userId = Some rp →
  rp_wasMaster rp = true →
  round r = rp_round rp →
  ∃ player w' r' effects,
    Controller.joinRoom roomId name userId w = (Returned player, w') ∧
    player_id player = userId ∧
    rooms (service w') !! roomId = Some r' ∧
    masterId r' = userId ∧
    trace w' = trace w ++ effects ∧
    SvcAddPlayer roomId userId name (joinPoints roomId (Some rp))
      ∈ calls effects ∧
    SvcUpdateMaster roomId userId ∈ calls effects ∧
    GwUpdateMaster roomId userId ∈ broadcasts effects ∧
    (currentWord r = [] →
     currentTurn r' = userId ∧ GwNewTurn roomId userId ∈ broadcasts effects).
Proof.
  intros Hr Hrp Hwas Hround.
  pose proof (joinRoom_takeover roomId name userId w r Hr) as Hrun.
  rewrite Hrp in Hrun. cbv zeta in Hrun.
  set (points := joinPoints roomId (Some rp)) in *.
  set (added := svc_addPlayer userId name points r) in *.
  assert (Hid : player_id added.1 = userId) by apply addPlayer_id.
  rewrite Hid in Hrun.
  set (promoted := svc_updateMaster userId added.2) in *.
  assert (Hword : currentWord promoted = currentWord r).
  { unfold promoted. rewrite updateMaster_word. apply addPlayer_word. }
  assert (Hmaster : masterId promoted = userId) by apply updateMaster_master.
  specialize (Hrun ltac:(
    unfold takesOver; rewrite Hwas; unfold added;
    rewrite addPlayer_round, bool_decide_eq_true_2; done)).
  destruct (currentWord promoted) as [|l word] eqn:Hpromoted.
  - eexists added.1, _, (set_currentTurn userId promoted), _.
    split; [exact Hrun|]. split; [done|].
    split; [apply lookup_storeRoom|]. split; [done|]. split; [done|].
    unfold joinPrefix.
    split; [in_list|]. split; [in_list|]. split; [in_list|].
    intros _. split; [done|in_list].
  - eexists added.1, _, promoted, _.
    split; [exact Hrun|]. split; [done|].
    split; [apply lookup_storeRoom|]. split; [done|]. split; [done|].
    unfold joinPrefix.
    split; [in_list|]. split; [in_list|]. split; [in_list|].
    intros Hempty. by rewrite <- Hword in Hempty.
Qed.

(** C7.  A returning player who was master, joining while the room is in
    the round of the record: the joiner becomes the room's master (the
    service is told so and the change is broadcast); if no word is set
    the joiner also becomes the turn holder and the new turn is
    broadcast. *)
Theorem joinRoom_returning_master `{!JoinContract} roomId name userId w r rp :
  rooms (service w) !! roomId = Some r →
  returningPlayers (service w) !! userId = Some rp →
  rp_wasMaster rp = true →
  round r = rp_round rp →
  ∃ player w' r' effects,
    Controller.joinRoom roomId name userId w = (Returned player, w') ∧
    player_id player = userId ∧
    rooms (service w') !! roomId = Some r' ∧
    trace w' = trace w ++ effects ∧
    masterId r' = userId ∧
    SvcUpdateMaster roomId userId ∈ calls effects ∧
    GwUpdateMaster roomId userId ∈ broadcasts effects ∧
    (currentWord r = [] →
     currentTurn r' = userId ∧ GwNewTurn roomId userId ∈ broadcasts effects).
Proof.
  intros Hr Hrp Hwas Hround.
  destruct (joinRoom_takeover_summary roomId name userId w r rp
              Hr Hrp Hwas Hround)
    as (player & w' & r' & effects & Hrun & Hid & Hr' & Hmaster & Htrace
        & _ & Hcall & Hcast & Hturn).
  by exists player, w', r', effects.
Qed.

(** C9.  The take-over does not look at the room of the record: a
    returning master whose record was saved for another room, joining a
    room that is in the round of the record, becomes master of the room
    joined; the record's room only decides the points, which are 0
    here. *)
Theorem joinRoom_master_across_rooms `{!JoinContract}
    roomId name userId w r rp :
  rooms (service w) !! roomId = Some r →
  returningPlayers (service w) !! userId = Some rp →
  rp_roomId rp ≠ roomId →
  rp_wasMaster rp = true →
  round r = rp_round rp →
  ∃ player w' r' effects,
    Controller.joinRoom roomId name userId w = (Returned player, w') ∧
    rooms (service w') !! roomId = Some r' ∧
    trace w' = trace w ++ effects ∧
    masterId r' = userId ∧
    SvcUpdateMaster roomId userId ∈ calls effects ∧
    GwUpdateMaster roomId userId ∈ broadcasts effects ∧
    SvcAddPlayer roomId userId name 0 ∈ calls effects.
Proof.
  intros Hr Hrp Hother Hwas Hround.
  destruct (joinRoom_takeover_summary roomId name userId w r rp
              Hr Hrp Hwas Hround)
    as (player & w' & r' & effects & Hrun & Hid & Hr' & Hmaster & Htrace
        & Hadd & Hcall & Hcast & _).
  exists player, w', r', effects. repeat split; try done.
  unfold joinPoints in Hadd. by rewrite bool_decide_eq_false_2 in Hadd.
Qed.
End JoinClaims.

(** ** Leaving a room *)
Section Leave.
Context `{Collaborators}.

Lemma removePlayer_service_run roomId playerId save w r :
  rooms (service w) !! roomId = Some r →
  let removal :=
    svc_removePlayer roomId playerId save r (returningPlayers (service w)) in
  Service.removePlayer roomId playerId save w =
    (Returned removal.1,
     mkWorld (mkGameService (<[roomId := removal.2.1]> (rooms (service w)))
                            removal.2.2)
             (trace w ++ [Invoke (SvcRemovePlayer roomId playerId save)])).
Proof.
  intros Hr removal. unfold Service.removePlayer, invoke.
  erewrite bind_returned by apply record_run.
  unfold getService, mbind, M_bind. simpl. rewrite Hr. fold removal.
  by destruct removal as [leaving [r1 history1]].
Qed.

Lemma removePlayer_service_missing roomId playerId save w :
  rooms (service w) !! roomId = None →
  Service.removePlayer roomId playerId save w =
    (Thrown NotFoundException,
     mkWorld (service w)
             (trace w ++ [Invoke (SvcRemovePlayer roomId playerId save)])).
Proof.
  intros Hr. unfold Service.removePlayer, invoke.
  erewrite bind_returned by apply record_run.
  unfold getService, mbind, M_bind. simpl. by rewrite Hr.
Qed.




End Leave.

(** ** Whole-word guesses *)
Section WordGuess.
Context `{Collaborators}.

Lemma revealAll_turn `{!TurnFrame} word r :
  currentTurn (revealAll word r).2 = currentTurn r.
Proof.
  revert r. induction word as [|l word IH]; intros r; simpl; [done|].
  pose proof (addGuess_turn (letter l) r) as Hstep.
  destruct (room_addGuess (letter l) r) as [g r']. simpl in Hstep.
  specialize (IH r'). destruct (revealAll word r') as [rest r''].
  simpl in *. congruence.
Qed.

Lemma newWordGuess_start roomId word userId w r :
  rooms (service w) !! roomId = Some r →
  Controller.newWordGuess roomId word userId w =
    (finished ← Controller.checkGameFinished roomId;
     (if finished : bool then mret ()
      else Gateway.newWordGuess roomId word);;
     mret word)
    (mkWorld (storeRoom roomId (room_checkWordGuess userId word r) (service w))
             (trace w ++ [Invoke (SvcGetRoomById roomId);
                          Invoke (RoomCheckWordGuess roomId userId word)])).
Proof.
  intros Hr. unfold Controller.newWordGuess.
  step @getRoomById_run.
  unfold Room.checkWordGuess. step @call_onRoom_run.
  simpl. by rewrite <- !app_assoc.
Qed.

(** C10.  A whole-word guess, right or wrong: the controller never asks
    for the next turn and never broadcasts one, the room's turn holder
    is who it was, and the new-word-guess event is broadcast exactly
    when the completion check reports no finish. *)
Theorem newWordGuess_keeps_turn `{!TurnFrame} roomId word userId w r :
  rooms (service w) !! roomId = Some r →
  ∃ w' r' effects,
    Controller.newWordGuess roomId word userId w = (Returned word, w') ∧
    rooms (service w') !! roomId = Some r' ∧
    currentTurn r' = currentTurn r ∧
    trace w' = trace w ++ effects ∧
    (∀ c, c ∈ calls effects → isTurnAdvance c = false) ∧
    (∀ b, b ∈ broadcasts effects → isNewTurn b = false) ∧
    (GwNewWordGuess roomId word ∈ broadcasts effects ↔
     (svc_checkGameFinished (room_checkWordGuess userId word r)).1 = None).
Proof.
  intros Hr.
  pose proof (newWordGuess_start roomId word userId w r Hr) as Hrun.
  set (r1 := room_checkWordGuess userId word r) in *.
  pose proof (checkGameFinished_turn r1) as Hcheck.
  destruct (svc_checkGameFinished r1) as [[fs|] r2] eqn:Hfs; simpl in Hcheck.
  - erewrite bind_returned in Hrun
      by (eapply checkGameFinished_finished; [room_here | exact Hfs]).
    simpl in Hrun. unfold mbind, M_bind, mret, M_ret in Hrun. simpl in Hrun.
    rewrite storeRoom_storeRoom, <- app_assoc in Hrun.
    eexists _, _, _. split; [exact Hrun|].
    split; [apply lookup_storeRoom|].
    split.
    { rewrite revealAll_turn, Hcheck. apply checkWordGuess_turn. }
    split; [done|].
    rewrite calls_app, broadcasts_app.
    rewrite finishSequence_calls, finishSequence_broadcasts. simpl.
    split.
    { intros c Hc.
      repeat (apply elem_of_cons in Hc as [->|Hc]; [done|]).
      apply list_elem_of_fmap in Hc as (x & -> & _). done. }
    split.
    { intros b Hb. apply elem_of_app in Hb as [Hb|Hb].
      - apply list_elem_of_fmap in Hb as (x & -> & _). done.
      - repeat (apply elem_of_cons in Hb as [->|Hb]; [done|]).
        by apply elem_of_nil in Hb. }
    split; [|done].
    intros Hb. apply elem_of_app in Hb as [Hb|Hb].
    + apply list_elem_of_fmap in Hb as (x & Hx & _). done.
    + repeat (apply elem_of_cons in Hb as [Hx|Hb]; [done|]).
      by apply elem_of_nil in Hb.
  - erewrite bind_returned in Hrun
      by (eapply checkGameFinished_unfinished; [room_here | exact Hfs]).
    simpl in Hrun. unfold Gateway.newWordGuess in Hrun.
    erewrite bind_returned in Hrun by apply emit_run.
    unfold mret, M_ret in Hrun. simpl in Hrun.
    rewrite storeRoom_storeRoom, <- !app_assoc in Hrun. simpl in Hrun.
    eexists _, _, _. split; [exact Hrun|].
    split; [apply lookup_storeRoom|].
    split; [rewrite Hcheck; apply checkWordGuess_turn|].
    split; [done|]. simpl.
    split.
    { intros c Hc.
      repeat (apply elem_of_cons in Hc as [->|Hc]; [done|]).
      by apply elem_of_nil in Hc. }
    split.
    { intros b Hb.
      repeat (apply elem_of_cons in Hb as [->|Hb]; [done|]).
      by apply elem_of_nil in Hb. }
    split; [done|]. intros _. apply list_elem_of_here.
Qed.
End WordGuess.

(** ** The model follows the specification *)
Section ModelContracts.
Import SpecModel.

#[global] Instance model_guessContract : GuessContract.
Proof.
  split. intros char r. simpl. unfold checkGuessIsPresent.
  apply bool_decide_eq_true.
Qed.

#[global] Instance model_joinContract : JoinContract.
Proof. split; intros; reflexivity. Qed.

#[global] Instance model_pointsContract : PointsContract.
Proof.
  split; [intros; reflexivity ..|].
  intros playerId r. simpl. unfold updateMaster. simpl.
  rewrite <- list_fmap_compose. by apply list_fmap_ext.
Qed.

#[global] Instance model_reassignContract : ReassignContract.
Proof.
  split. intros roomId playerId save r history successor Hturn Hnext.
  simpl. unfold updateNextTurn. simpl.
  by rewrite bool_decide_eq_true_2, Hnext.
Qed.

#[global] Instance model_leaveContract : LeaveContract.
Proof.
  split.
  - intros playerId r. simpl. unfold isPlayerInTurn.
    apply bool_decide_eq_true.
  - intros; reflexivity.
Qed.

#[global] Instance model_turnFrame : TurnFrame.
Proof.
  split.
  - intros; reflexivity.
  - intros userId word r. simpl. unfold checkWordGuess.
    destruct (currentWord r); [done|]. by case_bool_decide.
  - intros r. simpl. unfold checkGameFinished.
    destruct (currentWord r); [done|].
    by destruct (forallb guessed (w :: l) && negb (finishReported r)).
Qed.
End ModelContracts.

(** ** Setting the word and leaving, on the model *)
Section ModelClaims.
Import SpecModel.

(** What the set-word request does once the in-turn guard has let it
    through. *)
Lemma postWord_admitted caller roomId word w r :
  rooms (service w) !! roomId = Some r →
  currentTurn r = caller →
  Controller.postWord caller roomId word w =
    (room ← Service.getRoomById roomId;
     Room.setWord room word;;
     current ← Room.currentWord room;
     Gateway.setWord roomId current;;
     next ← Room.updateNextTurn room;
     Gateway.newTurn roomId next;;
     mret word) w.
Proof.
  intros Hr Hturn.
  unfold Controller.postWord, Controller.IsPlayerInTurnGuard.
  erewrite bind_returned; [reflexivity|].
  step @readRoom_run. simpl. unfold isPlayerInTurn.
  by rewrite bool_decide_eq_true_2.
Qed.

(** C3.  On the model, a set-word request is answered only when the
    caller is the master (the endpoint's guard lets the turn holder
    through and the room takes a word only while the master holds the
    turn), the room awaits a word and the word is non-empty and
    alphabetic, and it is answered then; a request that is refused, for
    another caller, state or word, leaves the service state as it was and
    broadcasts nothing. *)
Theorem postWord_gate caller roomId word w :
  match Controller.postWord caller roomId word w with
  | (Returned _, w') =>
      ∃ r, rooms (service w) !! roomId = Some r ∧
           caller = masterId r ∧
           currentTurn r = caller ∧
           currentWord r = [] ∧
           validWord word = true
  | (Thrown _, w') =>
      service w' = service w ∧ broadcasts (trace w') = broadcasts (trace w)
  end ∧
  ∀ r, rooms (service w) !! roomId = Some r →
       caller = masterId r →
       currentTurn r = caller →
       currentWord r = [] →
       validWord word = true →
       (Controller.postWord caller roomId word w).1 = Returned word.
Proof.
  assert (Haccepted : ∀ r,
    rooms (service w) !! roomId = Some r →
    caller = masterId r → currentTurn r = caller →
    currentWord r = [] → validWord word = true →
    ∃ w', Controller.postWord caller roomId word w = (Returned word, w')).
  { intros r Hr Hmaster Hturn Hword Hvalid.
    rewrite (postWord_admitted caller roomId word w r Hr Hturn).
    eexists. step @getRoomById_run.
    erewrite bind_returned.
    2:{ erewrite setWord_run by room_here. simpl. unfold setWord.
        rewrite Hword, bool_decide_eq_true_2 by congruence.
        rewrite Hvalid. reflexivity. }
    unfold Room.currentWord. step @readRoom_run.
    unfold Gateway.setWord. step_emit.
    unfold Room.updateNextTurn. step @call_onRoom_run.
    unfold Gateway.newTurn. step_emit. reflexivity. }
  split.
  2:{ intros r Hr Hmaster Hturn Hword Hvalid.
      destruct (Haccepted r Hr Hmaster Hturn Hword Hvalid) as [w' ->].
      reflexivity. }
  destruct (rooms (service w) !! roomId) as [r|] eqn:Hr.
  2:{ unfold Controller.postWord, Controller.IsPlayerInTurnGuard.
      erewrite bind_thrown.
      2:{ erewrite bind_thrown; [reflexivity|]. by apply readRoom_missing. }
      done. }
  destruct (decide (currentTurn r = caller)) as [Hturn|Hturn].
  2:{ unfold Controller.postWord, Controller.IsPlayerInTurnGuard.
      erewrite bind_thrown.
      2:{ step @readRoom_run. simpl. unfold isPlayerInTurn.
          rewrite bool_decide_eq_false_2 by done. reflexivity. }
      done. }
  assert (Hrefused : ∀ e,
    (setWord word r) = (Some e, r) →
    ∃ w', Controller.postWord caller roomId word w = (Thrown e, w') ∧
          service w' = service w ∧
          broadcasts (trace w') = broadcasts (trace w)).
  { intros e He.
    rewrite (postWord_admitted caller roomId word w r Hr Hturn).
    eexists. split.
    { step @getRoomById_run.
      erewrite bind_thrown; [reflexivity|].
      erewrite setWord_run by room_here.
      change (room_setWord word r) with (setWord word r).
      rewrite He. reflexivity. }
    simpl. rewrite storeRoom_same by done.
    by rewrite <- !app_assoc, broadcasts_app, app_nil_r. }
  unfold setWord in Hrefused.
  destruct (currentWord r) as [|l rest] eqn:Hword.
  2:{ destruct (Hrefused _ eq_refl) as (w' & -> & Hkept). exact Hkept. }
  case_bool_decide as Hmaster.
  2:{ destruct (Hrefused _ eq_refl) as (w' & -> & Hkept). exact Hkept. }
  destruct (validWord word) eqn:Hvalid.
  2:{ destruct (Hrefused _ eq_refl) as (w' & -> & Hkept). exact Hkept. }
  destruct (Haccepted r eq_refl ltac:(congruence) Hturn Hword eq_refl)
    as [w' ->].
  exists r. repeat split; congruence.
Qed.

(** C5 (as the controller has it).  On the model, a removal through the
    remove-player endpoint asks the service to remove the player with
    [save] false: no returning-player record is written and the history
    is what it was; when the room exists the removed player's last known
    info is what the request returns and what the player-left event
    carries. *)
Theorem removePlayer_keeps_history roomId playerId w :
  let result := Controller.removePlayer roomId playerId w in
  returningPlayers (service result.2) = returningPlayers (service w) ∧
  (∃ effects,
      trace result.2 = trace w ++ effects ∧
      head (calls effects) = Some (SvcRemovePlayer roomId playerId false) ∧
      ∀ c, c ∈ calls effects → c ≠ SvcRemovePlayer roomId playerId true) ∧
  ∀ r, rooms (service w) !! roomId = Some r →
       result.1 = Returned (playerOf playerId r) ∧
       head (broadcasts (drop (length (trace w)) (trace result.2))) =
         Some (GwLeaveRoom roomId
                 (mkReturningPlayer roomId (playerOf playerId r)
                    (bool_decide (masterId r = playerId)) (round r))).
Proof.
  intros result. subst result. unfold Controller.removePlayer.
  destruct (rooms (service w) !! roomId) as [r|] eqn:Hr.
  2:{ erewrite bind_thrown by (by apply removePlayer_service_missing).
      simpl. split; [done|]. split; [|done].
      eexists. split; [done|]. split; [done|].
      intros c Hc. apply list_elem_of_singleton in Hc as ->. done. }
  erewrite bind_returned by (by apply removePlayer_service_run).
  simpl. unfold Gateway.leaveRoom. step_emit.
  unfold Service.isPlayerInTurn. step @call_readRoom_run.
  simpl. unfold isPlayerInTurn.
  case_bool_decide as Hturn.
  - unfold Service.updateNextTurn, Gateway.newTurn.
    erewrite bind_returned.
    2:{ step @call_onRoom_run. apply emit_run. }
    unfold mret, M_ret. simpl. rewrite <- !app_assoc. simpl.
    split; [done|]. split.
    { eexists. split; [done|]. split; [done|].
      intros c Hc. simpl in Hc.
      repeat (apply elem_of_cons in Hc as [->|Hc]; [done|]).
      by apply elem_of_nil in Hc. }
    intros r0 [= <-]. split; [done|].
    by rewrite drop_app_length.
  - unfold mbind, M_bind, mret, M_ret. simpl. rewrite <- !app_assoc. simpl.
    split; [done|]. split.
    { eexists. split; [done|]. split; [done|].
      intros c Hc. simpl in Hc.
      repeat (apply elem_of_cons in Hc as [->|Hc]; [done|]).
      by apply elem_of_nil in Hc. }
    intros r0 [= <-]. split; [done|].
    by rewrite drop_app_length.
Qed.
End ModelClaims.

(** ** The claims at work on the game of [Scenario] *)
Section Witnesses.
Import SpecModel Scenario.

(** Gus guesses "t", the last hidden letter of "cat": the three letters
    of the word are guessed again and broadcast in word order, then the
    finish and the player. *)
Lemma newGuess_completing_reveals_word_witness :
  rooms (service guessedCA) !! "r1" = Some (roomIn guessedCA) ∧
  checkGuessIsPresent "t" (roomIn guessedCA) = false ∧
  ∃ w',
    Controller.newGuess "r1" "t" guessedCA
      = (Returned (mkGuessInfo "t" true [2%nat] "G"), w') ∧
    broadcasts (trace w') =
      broadcasts (trace guessedCA)
      ++ [GwNewGuess "r1" (mkGuessInfo "t" true [2%nat] "G");
          GwNewGuess "r1" (mkGuessInfo "c" true [] "G");
          GwNewGuess "r1" (mkGuessInfo "a" true [] "G");
          GwNewGuess "r1" (mkGuessInfo "t" true [] "G");
          GwFinishGame "r1"
            (mkFinishState (mkPlayerInfo "G" "Gus" 3 false) "completed");
          GwUpdatePlayer "r1" (mkPlayerInfo "G" "Gus" 3 false)].
Proof.
  split; [vm_compute; reflexivity|]. split; [vm_compute; reflexivity|].
  destruct (newGuess_completing_reveals_word "r1" "t" guessedCA
              (roomIn guessedCA)
              (addGuess "t" (roomIn guessedCA)).1
              (addGuess "t" (roomIn guessedCA)).2
              (mkFinishState (mkPlayerInfo "G" "Gus" 3 false) "completed")
              (checkGameFinished (addGuess "t" (roomIn guessedCA)).2).2)
    as (revealed & r3 & w' & effects & Hreveal & Hrun & _ & Htrace & _
        & Hcast & _);
    [vm_compute; reflexivity ..|].
  exists w'. split; [exact Hrun|].
  rewrite Htrace, broadcasts_app, Hcast. f_equal.
  vm_compute in Hreveal. injection Hreveal as <- _. reflexivity.
Defined.

(** Gus guesses "c" a second time. *)
Lemma newGuess_duplicate_rejected_witness :
  rooms (service guessedC) !! "r1" = Some (roomIn guessedC) ∧
  "c" ∈ guessedLetters (roomIn guessedC) ∧
  ∃ w',
    Controller.newGuess "r1" "c" guessedC
      = (Thrown (BadRequestException (alreadyGuessed "c")), w') ∧
    service w' = service guessedC ∧
    broadcasts (trace w') = broadcasts (trace guessedC).
Proof.
  assert (Hroom : rooms (service guessedC) !! "r1" = Some (roomIn guessedC))
    by (vm_compute; reflexivity).
  assert (Hin : "c" ∈ guessedLetters (roomIn guessedC))
    by (vm_compute; apply list_elem_of_here).
  split; [exact Hroom|]. split; [exact Hin|].
  destruct (newGuess_duplicate_rejected "r1" "c" guessedC (roomIn guessedC)
              Hroom Hin)
    as (w' & Hrun & Hservice & Hcast & _).
  exists w'. split; [exact Hrun|]. split; [exact Hservice|exact Hcast].
Defined.

(** Gus guesses "c" first: the game goes on and the turn comes back to
    Gus, the only guesser. *)
Lemma newGuess_continuing_order_witness :
  rooms (service wordSet) !! "r1" = Some (roomIn wordSet) ∧
  checkGuessIsPresent "c" (roomIn wordSet) = false ∧
  ∃ w',
    Controller.newGuess "r1" "c" wordSet
      = (Returned (mkGuessInfo "c" true [0%nat] "G"), w') ∧
    trace w' =
      trace wordSet
      ++ [Invoke (SvcGetRoomById "r1");
          Invoke (RoomCheckGuessIsPresent "r1" "c");
          Invoke (RoomAddGuess "r1" "c");
          Emit (GwNewGuess "r1" (mkGuessInfo "c" true [0%nat] "G"));
          Invoke (SvcCheckGameFinished "r1");
          Invoke (RoomUpdateNextTurn "r1");
          Emit (GwNewTurn "r1" "G")].
Proof.
  split; [vm_compute; reflexivity|]. split; [vm_compute; reflexivity|].
  destruct (newGuess_continuing_order "r1" "c" wordSet (roomIn wordSet)
              (mkGuessInfo "c" true [0%nat] "G")
              (addGuess "c" (roomIn wordSet)).2
              (addGuess "c" (roomIn wordSet)).2
              "G"
              (updateNextTurn (addGuess "c" (roomIn wordSet)).2).2)
    as (w' & effects & Hrun & _ & Htrace & -> & _);
    [vm_compute; reflexivity ..|].
  exists w'. split; [exact Hrun|exact Htrace].
Defined.

(** Gus comes back to room [r1], which he left with 7 points. *)
Lemma joinRoom_initial_points_witness :
  rooms (service createdWithHistory) !! "r1" = Some (newRoom "M" "Mia") ∧
  ∃ player r' w',
    Controller.joinRoom "r1" "Gus" "G" createdWithHistory
      = (Returned player, w') ∧
    player_points player = 7 ∧
    rooms (service w') !! "r1" = Some r' ∧
    standing <$> players r' = [("M", 0); ("G", 7)].
Proof.
  assert (Hroom :
    rooms (service createdWithHistory) !! "r1" = Some (newRoom "M" "Mia"))
    by (vm_compute; reflexivity).
  split; [exact Hroom|].
  destruct (joinRoom_initial_points "r1" "Gus" "G" createdWithHistory
              (newRoom "M" "Mia") Hroom)
    as (points & player & r' & w' & effects & Hrun & _ & Hstanding & Hr'
        & Hstored & _ & _ & Hsame & _ & _).
  assert (Hseven : points = 7).
  { rewrite (Hsame gusRecord) by (vm_compute; reflexivity). reflexivity. }
  exists player, r', w'. split; [exact Hrun|].
  split; [rewrite <- Hseven; exact (f_equal snd Hstanding)|].
  split; [exact Hr'|]. rewrite Hstored, Hseven. reflexivity.
Defined.

(** Gus was master of [r1] in round 0 and the room is still in round 0,
    with no word set: he is master again and holds the turn. *)
Lemma joinRoom_returning_master_witness :
  rooms (service createdWithHistory) !! "r1" = Some (newRoom "M" "Mia") ∧
  returningPlayers (service createdWithHistory) !! "G" = Some gusRecord ∧
  rp_wasMaster gusRecord = true ∧
  round (newRoom "M" "Mia") = rp_round gusRecord ∧
  ∃ player w' r',
    Controller.joinRoom "r1" "Gus" "G" createdWithHistory
      = (Returned player, w') ∧
    rooms (service w') !! "r1" = Some r' ∧
    masterId r' = "G" ∧ currentTurn r' = "G".
Proof.
  assert (Hroom :
    rooms (service createdWithHistory) !! "r1" = Some (newRoom "M" "Mia"))
    by (vm_compute; reflexivity).
  assert (Hrecord :
    returningPlayers (service createdWithHistory) !! "G" = Some gusRecord)
    by (vm_compute; reflexivity).
  split; [exact Hroom|]. split; [exact Hrecord|].
  split; [reflexivity|]. split; [reflexivity|].
  destruct (joinRoom_returning_master "r1" "Gus" "G" createdWithHistory
              (newRoom "M" "Mia") gusRecord Hroom Hrecord eq_refl eq_refl)
    as (player & w' & r' & effects & Hrun & _ & Hr' & _ & Hmaster & _ & _
        & Hturn).
  exists player, w', r'. split; [exact Hrun|]. split; [exact Hr'|].
  split; [exact Hmaster|]. exact (proj1 (Hturn eq_refl)).
Defined.

(** Zoe was master of another room, [r0], in its round 0; room [r1] is
    in its own round 0: Zoe becomes master of [r1], with 0 points. *)
Lemma joinRoom_master_across_rooms_witness :
  rooms (service createdWithHistory) !! "r1" = Some (newRoom "M" "Mia") ∧
  returningPlayers (service createdWithHistory) !! "Z" = Some zoeRecord ∧
  rp_roomId zoeRecord ≠ "r1" ∧
  ∃ player w' r',
    Controller.joinRoom "r1" "Zoe" "Z" createdWithHistory
      = (Returned player, w') ∧
    rooms (service w') !! "r1" = Some r' ∧
    masterId r' = "Z".
Proof.
  assert (Hroom :
    rooms (service createdWithHistory) !! "r1" = Some (newRoom "M" "Mia"))
    by (vm_compute; reflexivity).
  assert (Hrecord :
    returningPlayers (service createdWithHistory) !! "Z" = Some zoeRecord)
    by (vm_compute; reflexivity).
  assert (Hother : rp_roomId zoeRecord ≠ "r1") by (simpl; discriminate).
  split; [exact Hroom|]. split; [exact Hrecord|]. split; [exact Hother|].
  destruct (joinRoom_master_across_rooms "r1" "Zoe" "Z" createdWithHistory
              (newRoom "M" "Mia") zoeRecord Hroom Hrecord Hother
              eq_refl eq_refl)
    as (player & w' & r' & effects & Hrun & Hr' & _ & Hmaster & _).
  exists player, w', r'. split; [exact Hrun|]. split; [exact Hr'|exact Hmaster].
Defined.


(** Gus tries the word "dog" while the word is "cat": the turn stays
    with Gus and the attempt is broadcast. *)
Lemma newWordGuess_keeps_turn_witness :
  rooms (service wordSet) !! "r1" = Some (roomIn wordSet) ∧
  ∃ w' r',
    Controller.newWordGuess "r1" "dog" "G" wordSet = (Returned "dog", w') ∧
    rooms (service w') !! "r1" = Some r' ∧
    currentTurn r' = currentTurn (roomIn wordSet) ∧
    GwNewWordGuess "r1" "dog" ∈ broadcasts (trace w').
Proof.
  assert (Hroom : rooms (service wordSet) !! "r1" = Some (roomIn wordSet))
    by (vm_compute; reflexivity).
  split; [exact Hroom|].
  destruct (newWordGuess_keeps_turn "r1" "dog" "G" wordSet (roomIn wordSet)
              Hroom)
    as (w' & r' & effects & Hrun & Hr' & Hturn & Htrace & _ & _ & Hcast).
  exists w', r'. split; [exact Hrun|]. split; [exact Hr'|].
  split; [exact Hturn|].
  rewrite Htrace, broadcasts_app. apply elem_of_app. right.
  apply Hcast. vm_compute. reflexivity.
Defined.

(** After the restart the turn is Mia's again, and she, the master, sets
    the next word. *)
Lemma postWord_gate_witness :
  rooms (service restarted) !! "r1" = Some (roomIn restarted) ∧
  "M" = masterId (roomIn restarted) ∧
  currentTurn (roomIn restarted) = "M" ∧
  currentWord (roomIn restarted) = [] ∧
  validWord "dog" = true ∧
  (Controller.postWord "M" "r1" "dog" restarted).1 = Returned "dog".
Proof.
  assert (Hroom : rooms (service restarted) !! "r1" = Some (roomIn restarted))
    by (vm_compute; reflexivity).
  assert (Hmaster : "M" = masterId (roomIn restarted))
    by (vm_compute; reflexivity).
  assert (Hturn : currentTurn (roomIn restarted) = "M")
    by (vm_compute; reflexivity).
  assert (Hword : currentWord (roomIn restarted) = [])
    by (vm_compute; reflexivity).
  assert (Hvalid : validWord "dog" = true) by (vm_compute; reflexivity).
  split; [exact Hroom|]. split; [exact Hmaster|]. split; [exact Hturn|].
  split; [exact Hword|]. split; [exact Hvalid|].
  pose proof (postWord_gate "M" "r1" "dog" restarted) as Hgate.
  destruct Hgate as [_ Hconverse].
  exact (Hconverse (roomIn restarted) Hroom Hmaster Hturn Hword Hvalid).
Defined.

(** Gus is removed while the game goes on: no record of him is kept,
    and the request answers with his last known info. *)
Lemma removePlayer_keeps_history_witness :
  rooms (service guessedC) !! "r1" = Some (roomIn guessedC) ∧
  returningPlayers
    (service (Controller.removePlayer "r1" "G" guessedC).2)
  = returningPlayers (service guessedC) ∧
  (Controller.removePlayer "r1" "G" guessedC).1
  = Returned (playerOf "G" (roomIn guessedC)).
Proof.
  assert (Hroom : rooms (service guessedC) !! "r1" = Some (roomIn guessedC))
    by (vm_compute; reflexivity).
  split; [exact Hroom|].
  destruct (removePlayer_keeps_history "r1" "G" guessedC)
    as (Hhistory & _ & Hinfo).
  split; [exact Hhistory|]. exact (proj1 (Hinfo (roomIn guessedC) Hroom)).
Defined.

(** Against C5 as stated: Gus is removed through the endpoint and the
    history holds no record under his id afterwards. *)
Lemma removePlayer_leaves_no_record :
  ∃ w',
    Controller.removePlayer "r1" "G" guessedC
      = (Returned (mkPlayerInfo "G" "Gus" 1 false), w') ∧
    returningPlayers (service w') !! "G" = None.
Proof.
  eexists. split; [vm_compute; reflexivity|]. vm_compute. reflexivity.
Qed.
End Witnesses.

(** * Further properties of the controller *)

Lemma onRoom_missing_run {A} roomId (f : RoomEntity → A * RoomEntity) w :
  rooms (service w) !! roomId = None →
  onRoom roomId f w = (Thrown NotFoundException, w).
Proof.
  intros Hr. unfold onRoom, getService, mbind, M_bind. by rewrite Hr.
Qed.

(** ** Requests for a room the registry does not hold *)
Section UnknownRoom.
Context `{Collaborators}.

Lemma notFound_untouched {A} (result : Outcome A * World) w effects :
  result =
    (Thrown NotFoundException, mkWorld (service w) (trace w ++ effects)) →
  broadcasts effects = [] →
  result.1 = Thrown NotFoundException ∧ untouched w result.
Proof.
  intros -> Hquiet. split; [done|]. split; [done|]. simpl.
  by rewrite broadcasts_app, Hquiet, app_nil_r.
Qed.

Lemma getRoomById_unknown roomId w :
  rooms (service w) !! roomId = None →
  Service.getRoomById roomId w =
    (Thrown NotFoundException,
     mkWorld (service w) (trace w ++ [Invoke (SvcGetRoomById roomId)])).
Proof.
  intros Hr. unfold Service.getRoomById, invoke.
  erewrite bind_returned by apply record_run.
  by rewrite readRoom_missing.
Qed.

(** X1.  A request that names a room the registry does not hold ends
    with the not-found exception before anything else happens: the
    service state is what it was and nothing is broadcast.  This holds for
    getRoom, restartGame, setWord, newGuess, newWordGuess, whose first
    step is the lookup, and for joinRoom, which fails at addPlayer before
    the join is broadcast. *)
Theorem unknown_room_rejected roomId w :
  rooms (service w) !! roomId = None →
  let notFound {A} (result : Outcome A * World) :=
    result.1 = Thrown NotFoundException ∧ untouched w result in
  notFound (getRoom roomId w) ∧
  notFound (Controller.restartGame roomId w) ∧
  (∀ word, notFound (Controller.setWord roomId word w)) ∧
  (∀ char, notFound (Controller.newGuess roomId char w)) ∧
  (∀ word userId, notFound (Controller.newWordGuess roomId word userId w)) ∧
  (∀ name userId, notFound (Controller.joinRoom roomId name userId w)).
Proof.
  intros Hr notFound. subst notFound. cbv beta.
  pose proof (getRoomById_unknown roomId w Hr) as Hlookup.
  split; [|split; [|split; [|split; [|split]]]]; intros.
  - eapply notFound_untouched;
      [unfold getRoom; by erewrite bind_thrown by exact Hlookup|reflexivity].
  - eapply notFound_untouched;
      [unfold Controller.restartGame; by erewrite bind_thrown by exact Hlookup|reflexivity].
  - eapply notFound_untouched;
      [unfold Controller.setWord; by erewrite bind_thrown by exact Hlookup|reflexivity].
  - eapply notFound_untouched;
      [unfold Controller.newGuess; by erewrite bind_thrown by exact Hlookup|reflexivity].
  - eapply notFound_untouched;
      [unfold Controller.newWordGuess; by erewrite bind_thrown by exact Hlookup|reflexivity].
  - eapply (notFound_untouched _ _
              [Invoke (SvcGetReturningPlayer userId);
               Invoke (SvcAddPlayer roomId userId name
                         (joinPoints roomId
                            (returningPlayers (service w) !! userId)))]);
      [|reflexivity].
    unfold Controller.joinRoom.
    erewrite bind_returned by apply getReturningPlayer_run.
    erewrite bind_thrown.
    2:{ unfold Service.addPlayer, invoke.
        erewrite bind_returned by apply record_run.
        by apply onRoom_missing_run. }
    simpl. by rewrite <- !app_assoc.
Qed.
End UnknownRoom.

(** ** Reading and restarting a room *)
Section ReadRestart.
Context `{Collaborators}.

Lemma getRoom_run roomId w r :
  rooms (service w) !! roomId = Some r →
  getRoom roomId w =
    (Returned r,
     mkWorld (service w) (trace w ++ [Invoke (SvcGetRoomById roomId)])).
Proof.
  intros Hr. unfold getRoom. step @getRoomById_run.
  by erewrite readRoom_run by room_here.
Qed.

(** X2.  getRoom is a read: whatever the outcome, the service state is
    what it was and nothing is broadcast; for a room the registry holds
    the answer is that room as stored. *)
Theorem getRoom_reads roomId w :
  untouched w (getRoom roomId w) ∧
  ∀ r, rooms (service w) !! roomId = Some r →
       (getRoom roomId w).1 = Returned r.
Proof.
  destruct (rooms (service w) !! roomId) as [r|] eqn:Hr.
  - rewrite (getRoom_run roomId w r Hr). split; [|by intros r0 [= <-]].
    split; [done|]. simpl. by rewrite broadcasts_app, app_nil_r.
  - split; [|done].
    eapply (notFound_untouched _ _ [Invoke (SvcGetRoomById roomId)]);
      [|reflexivity].
    unfold getRoom.
    by erewrite bind_thrown by (by apply getRoomById_unknown).
Qed.

(** X3.  restartGame answers with, and broadcasts, the room as it is
    after [room.restartGame()] (not as it was when the request came in),
    and a getRoom made next answers with that same room. *)
Theorem restartGame_then_getRoom roomId w r :
  rooms (service w) !! roomId = Some r →
  ∃ w',
    Controller.restartGame roomId w = (Returned (room_restartGame r), w') ∧
    service w' = storeRoom roomId (room_restartGame r) (service w) ∧
    trace w' =
      trace w
      ++ [Invoke (SvcGetRoomById roomId);
          Invoke (RoomRestartGame roomId);
          Emit (GwRestartGame roomId (room_restartGame r))] ∧
    (getRoom roomId w').1 = Returned (room_restartGame r).
Proof.
  intros Hr. eexists. split.
  { unfold Controller.restartGame. step @getRoomById_run.
    unfold Room.restartGame. step @call_onRoom_run.
    step @readRoom_run. unfold Gateway.restartGame. step_emit.
    reflexivity. }
  simpl. split; [done|]. split; [by rewrite <- !app_assoc|].
  by erewrite getRoom_run by apply lookup_storeRoom.
Qed.
End ReadRestart.

(** ** Setting the word *)
Section SetWord.
Context `{Collaborators}.

(** X4.  A word that [room.setWord] accepts: the word-set event carries
    the word as the room stores it after [setWord], it is broadcast before
    the turn is advanced, the turn is advanced once and the new turn
    holder broadcast, and the request echoes the word it was given. *)
Theorem setWord_accepted_order roomId word w r r1 next r2 :
  rooms (service w) !! roomId = Some r →
  room_setWord word r = (None, r1) →
  room_updateNextTurn r1 = (next, r2) →
  ∃ w',
    Controller.setWord roomId word w = (Returned word, w') ∧
    service w' = storeRoom roomId r2 (service w) ∧
    trace w' =
      trace w
      ++ [Invoke (SvcGetRoomById roomId);
          Invoke (RoomSetWord roomId word);
          Emit (GwSetWord roomId (currentWord r1));
          Invoke (RoomUpdateNextTurn roomId);
          Emit (GwNewTurn roomId next)].
Proof.
  intros Hr Hset Hnext. eexists. split.
  { unfold Controller.setWord. step @getRoomById_run.
    erewrite bind_returned.
    2:{ erewrite setWord_run by room_here. rewrite Hset. reflexivity. }
    unfold Room.currentWord. step @readRoom_run.
    unfold Gateway.setWord. step_emit.
    unfold Room.updateNextTurn. step @call_onRoom_run.
    unfold Gateway.newTurn. step_emit. reflexivity. }
  simpl. rewrite Hnext. simpl.
  split; [by rewrite !storeRoom_storeRoom|]. by rewrite <- !app_assoc.
Qed.

(** X5.  A word that [room.setWord] rejects: the request ends with the
    exception of [setWord]; nothing is broadcast and the turn is not
    advanced; the room is what [setWord] left, the controller adds
    nothing to it. *)
Theorem setWord_rejected_stops roomId word w r e r1 :
  rooms (service w) !! roomId = Some r →
  room_setWord word r = (Some e, r1) →
  ∃ w',
    Controller.setWord roomId word w = (Thrown e, w') ∧
    service w' = storeRoom roomId r1 (service w) ∧
    trace w' =
      trace w
      ++ [Invoke (SvcGetRoomById roomId); Invoke (RoomSetWord roomId word)] ∧
    broadcasts (trace w') = broadcasts (trace w).
Proof.
  intros Hr Hset. eexists. split.
  { unfold Controller.setWord. step @getRoomById_run.
    erewrite bind_thrown; [reflexivity|].
    erewrite setWord_run by room_here. rewrite Hset. reflexivity. }
  simpl. split; [done|].
  rewrite <- !app_assoc. split; [done|].
  by rewrite broadcasts_app, app_nil_r.
Qed.
End SetWord.

(** ** Leaving and joining without a change of turn *)
Section QuietLeaveJoin.
Context `{Collaborators}.

(** X6.  Removing a player who does not hold the turn: the player-left
    event is the only broadcast, the service is not asked for a next turn,
    and the room is what the removal left, with the turn where it was. *)
Theorem removePlayer_not_in_turn `{!LeaveContract} roomId playerId w r :
  rooms (service w) !! roomId = Some r →
  currentTurn r ≠ playerId →
  ∃ leaving r1 history1 w',
    svc_removePlayer roomId playerId false r (returningPlayers (service w))
      = (leaving, (r1, history1)) ∧
    Controller.removePlayer roomId playerId w
      = (Returned (rp_player leaving), w') ∧
    rooms (service w') = <[roomId := r1]> (rooms (service w)) ∧
    currentTurn r1 = currentTurn r ∧
    trace w' =
      trace w
      ++ [Invoke (SvcRemovePlayer roomId playerId false);
          Emit (GwLeaveRoom roomId leaving);
          Invoke (SvcIsPlayerInTurn roomId playerId)].
Proof.
  intros Hr Hturn.
  destruct (svc_removePlayer roomId playerId false r
              (returningPlayers (service w)))
    as [leaving [r1 history1]] eqn:Hremoval.
  pose proof (removePlayer_turn roomId playerId false r
                (returningPlayers (service w))) as Hframe.
  rewrite Hremoval in Hframe. simpl in Hframe.
  assert (Hnot : svc_isPlayerInTurn playerId r1 = false).
  { destruct (svc_isPlayerInTurn playerId r1) eqn:Hin; [|done].
    apply isPlayerInTurn_spec in Hin. congruence. }
  eexists leaving, r1, history1, _.
  split; [done|]. split.
  { unfold Controller.removePlayer.
    erewrite bind_returned by (by apply removePlayer_service_run).
    rewrite Hremoval. simpl.
    unfold Gateway.leaveRoom. step_emit.
    unfold Service.isPlayerInTurn. step @call_readRoom_run.
    rewrite Hnot. reflexivity. }
  simpl. split; [done|]. split; [done|]. by rewrite <- !app_assoc.
Qed.

(** X7.  A join that is no take-over (the user has no returning-player
    record, or was not master, or left in another round than the room is
    in): the player is added and the join broadcast; the service is not
    asked to change the master, no master or turn event is broadcast, and
    the room is what [addPlayer] left. *)
Theorem joinRoom_without_takeover `{!JoinContract} roomId name userId w r :
  rooms (service w) !! roomId = Some r →
  (returningPlayers (service w) !! userId = None ∨
   ∃ rp, returningPlayers (service w) !! userId = Some rp ∧
         (rp_wasMaster rp = false ∨ round r ≠ rp_round rp)) →
  ∃ points player r1 w',
    svc_addPlayer userId name points r = (player, r1) ∧
    Controller.joinRoom roomId name userId w = (Returned player, w') ∧
    service w' = storeRoom roomId r1 (service w) ∧
    trace w' =
      trace w
      ++ [Invoke (SvcGetReturningPlayer userId);
          Invoke (SvcAddPlayer roomId userId name points);
          Emit (GwJoin roomId player);
          Invoke (SvcGetRoomById roomId)].
Proof.
  intros Hr Hcase.
  pose proof (joinRoom_plain roomId name userId w r Hr) as Hrun.
  cbv zeta in Hrun.
  set (returning := returningPlayers (service w) !! userId) in *.
  set (points := joinPoints roomId returning) in *.
  destruct (svc_addPlayer userId name points r) as [player r1] eqn:Hadd.
  simpl in Hrun.
  assert (Hround : round r1 = round r).
  { pose proof (addPlayer_round userId name points r) as Hkeep.
    by rewrite Hadd in Hkeep. }
  assert (Hplain : takesOver returning r1 = false).
  { unfold takesOver.
    destruct Hcase as [->|(rp & -> & [Hwas|Hother])]; [done|by rewrite Hwas|].
    rewrite bool_decide_eq_false_2 by congruence. apply andb_false_r. }
  specialize (Hrun Hplain).
  exists points, player, r1. eexists.
  split; [done|]. split; [exact Hrun|]. by split.
Qed.

(** X8.  A returning master of the current round who joins while a word
    is set: the master is changed and the change broadcast, but the turn
    is not handed over: no new-turn event is broadcast and the room is
    what [updateMaster] left. *)
Theorem joinRoom_takeover_word_set `{!JoinContract}
    roomId name userId w r rp :
  rooms (service w) !! roomId = Some r →
  returningPlayers (service w) !! userId = Some rp →
  rp_wasMaster rp = true →
  round r = rp_round rp →
  currentWord r ≠ [] →
  ∃ points player r1 w',
    svc_addPlayer userId name points r = (player, r1) ∧
    Controller.joinRoom roomId name userId w = (Returned player, w') ∧
    service w' = storeRoom roomId (svc_updateMaster userId r1) (service w) ∧
    trace w' =
      trace w
      ++ [Invoke (SvcGetReturningPlayer userId);
          Invoke (SvcAddPlayer roomId userId name points);
          Emit (GwJoin roomId player);
          Invoke (SvcGetRoomById roomId);
          Invoke (SvcUpdateMaster roomId userId);
          Emit (GwUpdateMaster roomId userId)].
Proof.
  intros Hr Hrp Hwas Hround Hword.
  pose proof (joinRoom_takeover roomId name userId w r Hr) as Hrun.
  rewrite Hrp in Hrun. cbv zeta in Hrun.
  set (points := joinPoints roomId (Some rp)) in *.
  pose proof (addPlayer_id userId name points r) as Hid.
  pose proof (addPlayer_round userId name points r) as Hkeep.
  pose proof (addPlayer_word userId name points r) as Hsame.
  destruct (svc_addPlayer userId name points r) as [player r1] eqn:Hadd.
  simpl in *. rewrite Hid in Hrun.
  specialize (Hrun ltac:(
    unfold takesOver; rewrite Hwas, Hkeep, bool_decide_eq_true_2; done)).
  pose proof (updateMaster_word userId r1) as Hpromoted.
  destruct (currentWord (svc_updateMaster userId r1)) as [|l rest] eqn:Hset;
    [congruence|].
  exists points, player, r1. eexists.
  split; [done|]. split; [exact Hrun|]. by split.
Qed.
End QuietLeaveJoin.

(** ** The completion check *)
Section Completion.
Context `{Collaborators}.

Lemma revealAll_count word r : length (revealAll word r).1 = length word.
Proof.
  revert r. induction word as [|l word IH]; intros r; simpl; [done|].
  destruct (room_addGuess (letter l) r) as [g r'].
  specialize (IH r'). destruct (revealAll word r') as [rest r''].
  simpl in *. by rewrite IH.
Qed.

(** X9.  The private [checkGameFinished] answers true exactly when the
    service reports a finish state.  With no finish state its only effect
    is the service call.  With one, every synthetic guess is applied to
    the room before the first of them is broadcast ([map] runs to the end
    before [forEach] starts), there are as many of them as the word has
    letters, and the finish event and the player update close the
    sequence. *)
Theorem checkGameFinished_report room w r :
  rooms (service w) !! room = Some r →
  ∃ w',
    match svc_checkGameFinished r with
    | (None, r1) =>
        Controller.checkGameFinished room w = (Returned false, w') ∧
        service w' = storeRoom room r1 (service w) ∧
        trace w' = trace w ++ [Invoke (SvcCheckGameFinished room)]
    | (Some fs, r1) =>
        let reveal := revealAll (currentWord r1) r1 in
        Controller.checkGameFinished room w = (Returned true, w') ∧
        service w' = storeRoom room reveal.2 (service w) ∧
        length reveal.1 = length (currentWord r1) ∧
        trace w' =
          trace w
          ++ [Invoke (SvcCheckGameFinished room)]
          ++ (Invoke <$> (RoomAddGuess room <$> (letter <$> currentWord r1)))
          ++ (Emit <$> (GwNewGuess room <$> reveal.1))
          ++ [Emit (GwFinishGame room fs);
              Emit (GwUpdatePlayer room (finish_player fs))]
    end.
Proof.
  intros Hr.
  destruct (svc_checkGameFinished r) as [[fs|] r1] eqn:Hfs.
  - eexists. cbv zeta. split.
    { by apply (checkGameFinished_finished room w r fs r1). }
    simpl. split; [done|]. split; [apply revealAll_count|]. done.
  - eexists. split.
    { by apply (checkGameFinished_unfinished room w r r1). }
    by split.
Qed.

(** X10.  A whole-word guess after which the service reports a finish
    state: the request echoes the submitted word, no new-word-guess event
    is broadcast, and the broadcasts of the request are the results of
    one synthetic guess per letter of the word, in word order, then the
    finish event and the player update. *)
Theorem newWordGuess_finishing roomId word userId w r fs r2 :
  rooms (service w) !! roomId = Some r →
  svc_checkGameFinished (room_checkWordGuess userId word r) = (Some fs, r2) →
  ∃ revealed r3 w' effects,
    revealAll (currentWord r2) r2 = (revealed, r3) ∧
    Controller.newWordGuess roomId word userId w = (Returned word, w') ∧
    service w' = storeRoom roomId r3 (service w) ∧
    trace w' = trace w ++ effects ∧
    calls effects =
      [SvcGetRoomById roomId; RoomCheckWordGuess roomId userId word;
       SvcCheckGameFinished roomId]
      ++ (RoomAddGuess roomId <$> (letter <$> currentWord r2)) ∧
    broadcasts effects =
      (GwNewGuess roomId <$> revealed)
      ++ [GwFinishGame roomId fs; GwUpdatePlayer roomId (finish_player fs)].
Proof.
  intros Hr Hfs.
  destruct (revealAll (currentWord r2) r2) as [revealed r3] eqn:Hreveal.
  pose proof (newWordGuess_start roomId word userId w r Hr) as Hrun.
  erewrite bind_returned in Hrun
    by (eapply checkGameFinished_finished; [room_here | exact Hfs]).
  rewrite Hreveal in Hrun. simpl in Hrun.
  unfold mbind, M_bind, mret, M_ret in Hrun. simpl in Hrun.
  rewrite storeRoom_storeRoom, <- app_assoc in Hrun.
  eexists revealed, r3, _, _.
  split; [done|]. split; [exact Hrun|]. split; [done|]. split; [done|].
  rewrite calls_app, broadcasts_app.
  rewrite finishSequence_calls, finishSequence_broadcasts. by split.
Qed.

(** X14.  A whole-word guess after which the service reports no finish
    state: the new-word-guess event, carrying the word as it was
    submitted, is the only broadcast of the request, and the room is what
    the completion check left. *)
Theorem newWordGuess_missed roomId word userId w r r2 :
  rooms (service w) !! roomId = Some r →
  svc_checkGameFinished (room_checkWordGuess userId word r) = (None, r2) →
  ∃ w',
    Controller.newWordGuess roomId word userId w = (Returned word, w') ∧
    service w' = storeRoom roomId r2 (service w) ∧
    trace w' =
      trace w
      ++ [Invoke (SvcGetRoomById roomId);
          Invoke (RoomCheckWordGuess roomId userId word);
          Invoke (SvcCheckGameFinished roomId);
          Emit (GwNewWordGuess roomId word)].
Proof.
  intros Hr Hfs.
  pose proof (newWordGuess_start roomId word userId w r Hr) as Hrun.
  erewrite bind_returned in Hrun
    by (eapply checkGameFinished_unfinished; [room_here | exact Hfs]).
  simpl in Hrun. unfold Gateway.newWordGuess in Hrun.
  erewrite bind_returned in Hrun by apply emit_run.
  unfold mret, M_ret in Hrun. simpl in Hrun.
  rewrite storeRoom_storeRoom, <- !app_assoc in Hrun. simpl in Hrun.
  eexists. split; [exact Hrun|]. by split.
Qed.
End Completion.

(** ** What no request does *)

Section Respects.
Context `{Collaborators}.
Context (roomId : string) (R : World → World → Prop) `{!RequestFrame roomId R}.

Lemma respects_ret {A} (a : A) : respects R (mret a : M A).
Proof. intros w. apply frame_refl. Qed.

Lemma respects_throw {A} e : respects R (throw e : M A).
Proof. intros w. apply frame_refl. Qed.

Lemma respects_bind {A B} (m : M A) (f : A → M B) :
  respects R m → (∀ a, respects R (f a)) → respects R (m ≫= f).
Proof.
  intros Hm Hf w. unfold mbind, M_bind.
  specialize (Hm w). destruct (m w) as [[a|e] w1]; simpl in *; [|done].
  eapply frame_trans; [exact Hm|]. apply Hf.
Qed.

Lemma respects_record e : respects R (record e).
Proof. intros w. apply frame_record. Qed.

Lemma respects_getService : respects R getService.
Proof. intros w. apply frame_refl. Qed.

Lemma respects_onRoom {A} (f : RoomEntity → A * RoomEntity) :
  respects R (onRoom roomId f).
Proof.
  intros w. unfold onRoom, getService, mbind, M_bind. simpl.
  destruct (rooms (service w) !! roomId) as [r|] eqn:Hr.
  - destruct (f r) as [a r']. simpl. by eapply frame_room.
  - apply frame_refl.
Qed.

Lemma respects_readRoom {A} (f : RoomEntity → A) :
  respects R (readRoom roomId f).
Proof.
  intros w. unfold readRoom, getService, mbind, M_bind. simpl.
  destruct (rooms (service w) !! roomId); apply frame_refl.
Qed.

(** The reference [getRoomById] returns is the id it was asked for. *)
Lemma respects_getRoomById {B} (f : string → M B) :
  respects R (f roomId) → respects R (Service.getRoomById roomId ≫= f).
Proof.
  intros Hf w. unfold Service.getRoomById, invoke, readRoom, getService.
  unfold mbind, M_bind. simpl.
  destruct (rooms (service w) !! roomId); simpl.
  - eapply frame_trans; [apply frame_record|]. apply Hf.
  - apply frame_record.
Qed.

Lemma respects_mapM {A B} (f : A → M B) l :
  (∀ x, respects R (f x)) → respects R (mapM f l).
Proof.
  intros Hf. induction l as [|x l IH]; [apply respects_ret|].
  unfold mapM; fold (mapM f).
  apply respects_bind; [apply Hf|]. intros y.
  apply respects_bind; [exact IH|]. intros ys. apply respects_ret.
Qed.

Lemma respects_forEach {A} (f : A → M unit) l :
  (∀ x, respects R (f x)) → respects R (forEach f l).
Proof.
  intros Hf. induction l as [|x l IH]; [apply respects_ret|].
  simpl. apply respects_bind; [apply Hf|]. intros _. exact IH.
Qed.
End Respects.

(** Going through a handler step by step. *)
Ltac respects_step k :=
  first
    [ apply (respects_ret k); exact _
    | apply (respects_throw k); exact _
    | apply (respects_record k); exact _
    | apply (respects_getService k); exact _
    | apply (respects_onRoom k); exact _
    | apply (respects_readRoom k); exact _
    | apply (respects_mapM k); [exact _|intros ?]
    | apply (respects_forEach k); [exact _|intros ?]
    | apply (respects_getRoomById k); [exact _|]
    | apply (respects_bind k); [exact _| |intros ?]
    | match goal with
      | |- respects _ (match ?x with _ => _ end) => destruct x
      end ].

Ltac respects_run k :=
  unfold Service.getReturningPlayer, Service.addPlayer,
    Service.updateMaster, Service.isPlayerInTurn, Service.updateNextTurn,
    Service.checkGameFinished,
    Room.id, Room.round, Room.currentWord, Room.assignCurrentTurn,
    Room.restartGame, Room.setWord, Room.updateNextTurn,
    Room.checkGuessIsPresent, Room.addGuess, Room.checkWordGuess,
    Gateway.restartGame, Gateway.join, Gateway.updateMaster, Gateway.newTurn,
    Gateway.leaveRoom, Gateway.setWord, Gateway.newGuess, Gateway.finishGame,
    Gateway.updatePlayer, Gateway.newWordGuess, invoke, emit;
  repeat respects_step k.

Section Frames.
Context `{Collaborators}.

Lemma respects_checkGameFinished roomId R `{!RequestFrame roomId R} :
  respects R (Controller.checkGameFinished roomId).
Proof. unfold Controller.checkGameFinished. respects_run roomId. Qed.

(** What holds of every handler but [removePlayer], for any frame. *)
Lemma respects_handlers roomId R `{!RequestFrame roomId R} :
  respects R (getRoom roomId) ∧
  respects R (Controller.restartGame roomId) ∧
  (∀ name userId, respects R (Controller.joinRoom roomId name userId)) ∧
  (∀ word, respects R (Controller.setWord roomId word)) ∧
  (∀ char, respects R (Controller.newGuess roomId char)) ∧
  (∀ word userId, respects R (Controller.newWordGuess roomId word userId)).
Proof.
  split; [unfold getRoom; respects_run roomId|].
  split; [unfold Controller.restartGame; respects_run roomId|].
  split; [intros; unfold Controller.joinRoom; respects_run roomId|].
  split; [intros; unfold Controller.setWord; respects_run roomId|].
  split; intros.
  - unfold Controller.newGuess. respects_run roomId;
      try (by apply respects_checkGameFinished); respects_run roomId.
  - unfold Controller.newWordGuess. respects_run roomId;
      try (by apply respects_checkGameFinished); respects_run roomId.
Qed.

#[global] Instance confinedTo_frame roomId : RequestFrame roomId (confinedTo roomId).
Proof.
  split.
  - intros w. split; [done|]. split; [done|]. exists []. by rewrite app_nil_r.
  - intros w1 w2 w3 (Hother12 & Hdom12 & e12 & Ht12)
                    (Hother23 & Hdom23 & e23 & Ht23).
    split; [|split].
    + intros other Hne. by rewrite Hother23, Hother12.
    + by rewrite Hdom23.
    + exists (e12 ++ e23). by rewrite Ht23, Ht12, app_assoc.
  - intros w e. split; [done|]. split; [done|]. by exists [e].
  - intros w r r' Hr. split; [|split].
    + intros other Hne. simpl. by rewrite lookup_insert_ne.
    + simpl. apply dom_insert_lookup_L. by exists r.
    + exists []. simpl. by rewrite app_nil_r.
Qed.

(** X12.  Whatever the outcome, a request changes no room but the one
    it names, neither adds nor drops a room id, and only extends the
    trace: what was broadcast stays broadcast.  This holds of getRoom,
    restartGame, joinRoom, removePlayer, setWord, newGuess and
    newWordGuess. *)
Theorem handlers_confined_to_room roomId :
  respects (confinedTo roomId) (getRoom roomId) ∧
  respects (confinedTo roomId) (Controller.restartGame roomId) ∧
  (∀ name userId,
     respects (confinedTo roomId) (Controller.joinRoom roomId name userId)) ∧
  (∀ playerId,
     respects (confinedTo roomId) (Controller.removePlayer roomId playerId)) ∧
  (∀ word, respects (confinedTo roomId) (Controller.setWord roomId word)) ∧
  (∀ char, respects (confinedTo roomId) (Controller.newGuess roomId char)) ∧
  (∀ word userId,
     respects (confinedTo roomId)
              (Controller.newWordGuess roomId word userId)).
Proof.
  destruct (respects_handlers roomId (confinedTo roomId))
    as (Hget & Hrestart & Hjoin & Hset & Hguess & Hword).
  split; [exact Hget|]. split; [exact Hrestart|]. split; [exact Hjoin|].
  split; [|split; [exact Hset|split; [exact Hguess|exact Hword]]].
  intros playerId. unfold Controller.removePlayer.
  apply (respects_bind roomId); [exact _| |].
  - intros w. unfold Service.removePlayer, invoke, getService.
    unfold mbind, M_bind. simpl.
    destruct (rooms (service w) !! roomId) as [r|] eqn:Hr.
    + destruct (svc_removePlayer roomId playerId false r
                  (returningPlayers (service w)))
        as [leaving [r1 history1]]. simpl.
      split; [|split].
      * intros other Hne. simpl. by rewrite lookup_insert_ne.
      * simpl. apply dom_insert_lookup_L. by exists r.
      * by eexists.
    + split; [done|]. split; [done|]. by eexists.
  - intros leaving. respects_run roomId.
Qed.

End Frames.

(** ** These properties at work on the game of [Scenario] *)
Section MoreWitnesses.
Import SpecModel Scenario Replay.

(** Nobody created room [r9]. *)
Lemma unknown_room_rejected_witness :
  rooms (service created) !! "r9" = None ∧
  (Controller.newGuess "r9" "a" created).1 = Thrown NotFoundException ∧
  (Controller.joinRoom "r9" "Gus" "G" created).1 = Thrown NotFoundException ∧
  service (Controller.joinRoom "r9" "Gus" "G" created).2 = service created.
Proof.
  assert (Hnone : rooms (service created) !! "r9" = None)
    by (vm_compute; reflexivity).
  split; [exact Hnone|].
  pose proof (unknown_room_rejected "r9" created Hnone) as Hall.
  cbv zeta beta in Hall.
  destruct Hall as (_ & _ & _ & Hguess & _ & Hjoin).
  split; [exact (proj1 (Hguess "a"))|].
  split; [exact (proj1 (Hjoin "Gus" "G"))|].
  exact (proj1 (proj2 (Hjoin "Gus" "G"))).
Defined.

(** Mia's room, read right after its creation. *)
Lemma getRoom_reads_witness :
  rooms (service created) !! "r1" = Some (newRoom "M" "Mia") ∧
  (getRoom "r1" created).1 = Returned (newRoom "M" "Mia") ∧
  service (getRoom "r1" created).2 = service created.
Proof.
  assert (Hroom : rooms (service created) !! "r1" = Some (newRoom "M" "Mia"))
    by (vm_compute; reflexivity).
  split; [exact Hroom|].
  destruct (getRoom_reads "r1" created) as [[Hservice _] Hanswer].
  split; [exact (Hanswer _ Hroom)|exact Hservice].
Defined.

(** Mia restarts the finished game: round 1 is what is answered,
    broadcast and read back. *)
Lemma restartGame_then_getRoom_witness :
  rooms (service finished) !! "r1" = Some (roomIn finished) ∧
  round (restartGame (roomIn finished)) = 1 ∧
  ∃ w',
    Controller.restartGame "r1" finished
      = (Returned (restartGame (roomIn finished)), w') ∧
    (getRoom "r1" w').1 = Returned (restartGame (roomIn finished)).
Proof.
  assert (Hroom : rooms (service finished) !! "r1" = Some (roomIn finished))
    by (vm_compute; reflexivity).
  split; [exact Hroom|]. split; [vm_compute; reflexivity|].
  destruct (restartGame_then_getRoom "r1" finished (roomIn finished) Hroom)
    as (w' & Hrun & _ & _ & Hread).
  exists w'. split; [exact Hrun|exact Hread].
Defined.

(** Mia sets "cat": the word is broadcast, then the turn goes to Gus. *)
Lemma setWord_accepted_order_witness :
  rooms (service joined) !! "r1" = Some (roomIn joined) ∧
  (setWord "cat" (roomIn joined)).1 = None ∧
  ∃ w',
    Controller.setWord "r1" "cat" joined = (Returned "cat", w') ∧
    trace w' =
      trace joined
      ++ [Invoke (SvcGetRoomById "r1");
          Invoke (RoomSetWord "r1" "cat");
          Emit (GwSetWord "r1" (wordLetters "cat"));
          Invoke (RoomUpdateNextTurn "r1");
          Emit (GwNewTurn "r1" "G")].
Proof.
  assert (Hroom : rooms (service joined) !! "r1" = Some (roomIn joined))
    by (vm_compute; reflexivity).
  split; [exact Hroom|]. split; [vm_compute; reflexivity|].
  destruct (setWord_accepted_order "r1" "cat" joined (roomIn joined)
              (setWord "cat" (roomIn joined)).2 "G"
              (updateNextTurn (setWord "cat" (roomIn joined)).2).2 Hroom)
    as (w' & Hrun & _ & Htrace); [vm_compute; reflexivity ..|].
  exists w'. split; [exact Hrun|].
  rewrite Htrace. vm_compute. reflexivity.
Defined.

(** A second word while "cat" is being guessed is turned down. *)
Lemma setWord_rejected_stops_witness :
  rooms (service wordSet) !! "r1" = Some (roomIn wordSet) ∧
  ∃ w',
    Controller.setWord "r1" "dog" wordSet
      = (Thrown (BadRequestException "Word already set"), w') ∧
    broadcasts (trace w') = broadcasts (trace wordSet).
Proof.
  assert (Hroom : rooms (service wordSet) !! "r1" = Some (roomIn wordSet))
    by (vm_compute; reflexivity).
  split; [exact Hroom|].
  destruct (setWord_rejected_stops "r1" "dog" wordSet (roomIn wordSet)
              (BadRequestException "Word already set") (roomIn wordSet) Hroom)
    as (w' & Hrun & _ & _ & Hquiet); [vm_compute; reflexivity|].
  exists w'. split; [exact Hrun|exact Hquiet].
Defined.

(** Hal is removed while Gus holds the turn. *)
Lemma removePlayer_not_in_turn_witness :
  rooms (service threePlayers) !! "r1" = Some (roomIn threePlayers) ∧
  currentTurn (roomIn threePlayers) ≠ "H" ∧
  ∃ leaving w',
    Controller.removePlayer "r1" "H" threePlayers
      = (Returned (rp_player leaving), w') ∧
    trace w' =
      trace threePlayers
      ++ [Invoke (SvcRemovePlayer "r1" "H" false);
          Emit (GwLeaveRoom "r1" leaving);
          Invoke (SvcIsPlayerInTurn "r1" "H")].
Proof.
  assert (Hroom :
    rooms (service threePlayers) !! "r1" = Some (roomIn threePlayers))
    by (vm_compute; reflexivity).
  assert (Hturn : currentTurn (roomIn threePlayers) ≠ "H")
    by (vm_compute; discriminate).
  split; [exact Hroom|]. split; [exact Hturn|].
  destruct (removePlayer_not_in_turn "r1" "H" threePlayers
              (roomIn threePlayers) Hroom Hturn)
    as (leaving & r1 & history1 & w' & _ & Hrun & _ & _ & Htrace).
  exists leaving, w'. split; [exact Hrun|exact Htrace].
Defined.

(** Gus joins Mia's room for the first time. *)
Lemma joinRoom_without_takeover_witness :
  rooms (service created) !! "r1" = Some (newRoom "M" "Mia") ∧
  returningPlayers (service created) !! "G" = None ∧
  ∃ player w',
    Controller.joinRoom "r1" "Gus" "G" created = (Returned player, w') ∧
    broadcasts (trace w') = broadcasts (trace created) ++ [GwJoin "r1" player].
Proof.
  assert (Hroom : rooms (service created) !! "r1" = Some (newRoom "M" "Mia"))
    by (vm_compute; reflexivity).
  assert (Hnew : returningPlayers (service created) !! "G" = None)
    by (vm_compute; reflexivity).
  split; [exact Hroom|]. split; [exact Hnew|].
  destruct (joinRoom_without_takeover "r1" "Gus" "G" created
              (newRoom "M" "Mia") Hroom (or_introl Hnew))
    as (points & player & r1 & w' & _ & Hrun & _ & Htrace).
  exists player, w'. split; [exact Hrun|].
  rewrite Htrace, broadcasts_app. reflexivity.
Defined.

(** Gus, master of round 0 when he left, comes back after Mia has set
    "cat": he is master again, and no turn is announced. *)
Lemma joinRoom_takeover_word_set_witness :
  rooms (service wordSetByMia) !! "r1" = Some (roomIn wordSetByMia) ∧
  returningPlayers (service wordSetByMia) !! "G" = Some gusRecord ∧
  currentWord (roomIn wordSetByMia) ≠ [] ∧
  ∃ points player w',
    Controller.joinRoom "r1" "Gus" "G" wordSetByMia = (Returned player, w') ∧
    trace w' =
      trace wordSetByMia
      ++ [Invoke (SvcGetReturningPlayer "G");
          Invoke (SvcAddPlayer "r1" "G" "Gus" points);
          Emit (GwJoin "r1" player);
          Invoke (SvcGetRoomById "r1");
          Invoke (SvcUpdateMaster "r1" "G");
          Emit (GwUpdateMaster "r1" "G")].
Proof.
  assert (Hroom :
    rooms (service wordSetByMia) !! "r1" = Some (roomIn wordSetByMia))
    by (vm_compute; reflexivity).
  assert (Hrecord :
    returningPlayers (service wordSetByMia) !! "G" = Some gusRecord)
    by (vm_compute; reflexivity).
  assert (Hword : currentWord (roomIn wordSetByMia) ≠ [])
    by (vm_compute; discriminate).
  assert (Hround : round (roomIn wordSetByMia) = rp_round gusRecord)
    by (vm_compute; reflexivity).
  split; [exact Hroom|]. split; [exact Hrecord|]. split; [exact Hword|].
  destruct (joinRoom_takeover_word_set "r1" "Gus" "G" wordSetByMia
              (roomIn wordSetByMia) gusRecord Hroom Hrecord eq_refl
              Hround Hword)
    as (points & player & r1 & w' & _ & Hrun & _ & Htrace).
  exists points, player, w'. split; [exact Hrun|exact Htrace].
Defined.

(** The completion check while "cat" is still hidden. *)
Lemma checkGameFinished_report_witness :
  rooms (service wordSet) !! "r1" = Some (roomIn wordSet) ∧
  ∃ w',
    Controller.checkGameFinished "r1" wordSet = (Returned false, w') ∧
    trace w' = trace wordSet ++ [Invoke (SvcCheckGameFinished "r1")].
Proof.
  assert (Hroom : rooms (service wordSet) !! "r1" = Some (roomIn wordSet))
    by (vm_compute; reflexivity).
  split; [exact Hroom|].
  destruct (checkGameFinished_report "r1" wordSet (roomIn wordSet) Hroom)
    as [w' Hreport].
  assert (Hfs :
    svc_checkGameFinished (roomIn wordSet) = (None, roomIn wordSet))
    by (vm_compute; reflexivity).
  rewrite Hfs in Hreport. destruct Hreport as (Hrun & _ & Htrace).
  exists w'. split; [exact Hrun|exact Htrace].
Defined.

(** Gus guesses the whole word "cat". *)
Lemma newWordGuess_finishing_witness :
  rooms (service wordSet) !! "r1" = Some (roomIn wordSet) ∧
  ∃ w',
    Controller.newWordGuess "r1" "cat" "G" wordSet = (Returned "cat", w') ∧
    broadcasts (trace w') =
      broadcasts (trace wordSet)
      ++ [GwNewGuess "r1" (mkGuessInfo "c" true [] "G");
          GwNewGuess "r1" (mkGuessInfo "a" true [] "G");
          GwNewGuess "r1" (mkGuessInfo "t" true [] "G");
          GwFinishGame "r1"
            (mkFinishState (mkPlayerInfo "G" "Gus" 0 false) "completed");
          GwUpdatePlayer "r1" (mkPlayerInfo "G" "Gus" 0 false)].
Proof.
  assert (Hroom : rooms (service wordSet) !! "r1" = Some (roomIn wordSet))
    by (vm_compute; reflexivity).
  split; [exact Hroom|].
  destruct (newWordGuess_finishing "r1" "cat" "G" wordSet (roomIn wordSet)
              (mkFinishState (mkPlayerInfo "G" "Gus" 0 false) "completed")
              (checkGameFinished
                 (checkWordGuess "G" "cat" (roomIn wordSet))).2 Hroom)
    as (revealed & r3 & w' & effects & Hreveal & Hrun & _ & Htrace & _ & Hcast);
    [vm_compute; reflexivity|].
  exists w'. split; [exact Hrun|].
  rewrite Htrace, broadcasts_app, Hcast. f_equal.
  vm_compute in Hreveal. injection Hreveal as <- _. reflexivity.
Defined.

(** Gus tries "dog" while the word is "cat". *)
Lemma newWordGuess_missed_witness :
  rooms (service wordSet) !! "r1" = Some (roomIn wordSet) ∧
  ∃ w',
    Controller.newWordGuess "r1" "dog" "G" wordSet = (Returned "dog", w') ∧
    trace w' =
      trace wordSet
      ++ [Invoke (SvcGetRoomById "r1");
          Invoke (RoomCheckWordGuess "r1" "G" "dog");
          Invoke (SvcCheckGameFinished "r1");
          Emit (GwNewWordGuess "r1" "dog")].
Proof.
  assert (Hroom : rooms (service wordSet) !! "r1" = Some (roomIn wordSet))
    by (vm_compute; reflexivity).
  split; [exact Hroom|].
  destruct (newWordGuess_missed "r1" "dog" "G" wordSet (roomIn wordSet)
              (roomIn wordSet) Hroom)
    as (w' & Hrun & _ & Htrace); [vm_compute; reflexivity|].
  exists w'. split; [exact Hrun|exact Htrace].
Defined.
End MoreWitnesses.
